(** * Keyboard navigation of the file selection

    A shallow embedding of [app/src/lib/utils/selection.ts]: the two
    adjacent-file lookups [getNextFile] and [getPreviousFile], and the
    keyboard handler [maybeMoveSelection] with its two local helpers.

    The handler talks to two injected collaborators, the selection manager
    ([fileIdSelection]) and the DOM (the siblings of [targetElement]).  It is
    embedded as a function from its parameter record to the sequence of calls
    it issues on them, together with the final value of its local variable
    [selectionDirection]; a separate interpreter replays the calls on a view
    state. *)

From Stdlib Require Import ZArith String List Bool Lia.
From stdpp Require Import base list strings.
Import ListNotations.

Local Open Scope string_scope.
Local Open Scope Z_scope.
Local Open Scope list_scope.

(** ** Data *)

(** [AnyFile]: only [id] is read by the navigator; [path] stands for the
    rest of the record, so that two files with one identifier can differ. *)
Record AnyFile : Type := { id : string; path : string }.

(** A DOM element as the handler sees it: its own handle and the handles of
    its two siblings ([None] for JavaScript's [null]). *)
Record HTMLElement : Type := {
  handle : nat;
  previousElementSibling : option nat;
  nextElementSibling : option nat
}.

(** The value of the local variable [selectionDirection]. *)
Inductive Direction : Type := up | down | none.

Definition Direction_eqb (a b : Direction) : bool :=
  match a, b with
  | up, up | down, down | none, none => true
  | _, _ => false
  end.

(** The calls the handler makes on its collaborators. *)
Inductive Call : Type :=
| fileIdSelection_add (fileId : string)
| fileIdSelection_remove (fileId : string)
| fileIdSelection_clear
| element_focus (element : nat).

(** How a call of the handler ends.  [selectionDirection] is [None] when the
    handler returned before the variable was declared. *)
Inductive Outcome : Type :=
| Threw
| Returned (selectionDirection : option Direction) (calls : list Call).

(** The parameter object of [maybeMoveSelection], without [fileIdSelection]:
    the manager is the receiver of the calls.  [selectedFileIds] is the array
    the caller passes; the handler only reads it, and the manager is taken
    to build a new sequence on [remove] rather than to write into this
    array, so that the test in [getAndAddFile] sees the array as passed. *)
Record MoveSelectionParams : Type := {
  allowMultiple : bool;
  shiftKey : bool;
  key : string;
  targetElement : HTMLElement;
  file : AnyFile;
  files : list AnyFile;
  selectedFileIds : list string
}.

(** The state the calls act on: the manager's sequence of keys and the
    element that has the focus. *)
Record View : Type := { selection : list string; focused : option nat }.

(** ** Array primitives *)

(** [Array.prototype.findIndex]: the first position whose element satisfies
    the predicate, [-1] when there is none. *)
Fixpoint findIndex {A : Type} (p : A -> bool) (l : list A) : Z :=
  match l with
  | [] => -1
  | x :: l' =>
      if p x then 0
      else let i := findIndex p l' in if i =? -1 then -1 else i + 1
  end.

(** [l[i]] for an integer [i]: [None] (undefined) outside the array. *)
Definition index {A : Type} (l : list A) (i : Z) : option A :=
  if i <? 0 then None else l !! Z.to_nat i.

(** [Array.prototype.includes] on an array of strings. *)
Definition includes (l : list string) (s : string) : bool :=
  existsb (String.eqb s) l.

(** ** The adjacent-file lookups *)

Definition getNextFile (files : list AnyFile) (currentId : string) : option AnyFile :=
  let fileIndex := findIndex (fun f => String.eqb (id f) currentId) files in
  if negb (fileIndex =? -1) && (fileIndex + 1 <? Z.of_nat (length files))
  then index files (fileIndex + 1)
  else None.

Definition getPreviousFile (files : list AnyFile) (currentId : string) : option AnyFile :=
  let fileIndex := findIndex (fun f => String.eqb (id f) currentId) files in
  if 0 <? fileIndex then index files (fileIndex - 1) else None.

(** Modelled from the spec: [getSelectionDirection] is an import of
    [selection.ts] (from [./getSelectionDirection]) whose body is missing.
    The spec computes the direction from the list position of the
    last-selected identifier against that of the first-selected one: [down]
    if the last one's position is greater, [up] if it is less, [none] if they
    are equal.  The handler passes the last position first. *)
Definition getSelectionDirection (lastFileIndex firstFileIndex : Z) : Direction :=
  if firstFileIndex <? lastFileIndex then down
  else if lastFileIndex <? firstFileIndex then up
  else none.

(** The list position of an identifier: the first place of the file list
    that holds a file with this identifier. *)
Definition position (files : list AnyFile) (currentId : string) (i : nat) : Prop :=
  (exists g, files !! i = Some g /\ id g = currentId) /\
  (forall j g, (j < i)%nat -> files !! j = Some g -> id g <> currentId).

(** ** The file list of the spec's examples *)

Definition namedFile (name : string) : AnyFile :=
  {| id := name; path := "src/" +:+ name |}.

Definition exampleFiles : list AnyFile :=
  [namedFile "A"; namedFile "B"; namedFile "C"; namedFile "D"].

(** The second of three rows. *)
Definition exampleElement : HTMLElement :=
  {| handle := 1; previousElementSibling := Some 0%nat; nextElementSibling := Some 2%nat |}.

(** A key press where multiple selection is allowed. *)
Definition press (k : string) (extend : bool) (current : AnyFile)
    (fs : list AnyFile) (selected : list string) : MoveSelectionParams :=
  {| allowMultiple := true; shiftKey := extend; key := k;
     targetElement := exampleElement; file := current;
     files := fs; selectedFileIds := selected |}.

(** The codec of the spec's examples, where a key is the identifier itself. *)
Definition plainKey (i : string) : string := i.

(** The same key press with another state of the shift key. *)
Definition withShiftKey (held : bool) (p : MoveSelectionParams) : MoveSelectionParams :=
  {| allowMultiple := allowMultiple p; shiftKey := held; key := key p;
     targetElement := targetElement p; file := file p;
     files := files p; selectedFileIds := selectedFileIds p |}.

(** ** The token effect of the web layout

    [apps/web/src/routes/+layout.svelte] runs one effect: it takes the
    stored token or else the [gb_access_token] parameter of the page URL,
    hands a token it found to the authentication service and strips the
    parameter from the URL.  A run is embedded as a function from the stored
    token and the search parameters to the calls it issues and the search
    parameters it leaves. *)

(** A value that is a string, [undefined] or [null] is truthy when it is a
    string other than the empty one. *)
Definition truthy (value : option string) : bool :=
  match value with
  | Some s => negb (String.eqb s "")
  | None => false
  end.

(** [URLSearchParams]: the pairs in their order; [get] gives the first value
    of a name, [delete] drops every pair of the name. *)
Definition searchParams_get (name : string) (params : list (string * string)) : option string :=
  match List.find (fun kv => String.eqb (fst kv) name) params with
  | Some kv => Some (snd kv)
  | None => None
  end.

Definition searchParams_has (name : string) (params : list (string * string)) : bool :=
  existsb (fun kv => String.eqb (fst kv) name) params.

Definition searchParams_delete (name : string) (params : list (string * string))
    : list (string * string) :=
  List.filter (fun kv => negb (String.eqb (fst kv) name)) params.

(** The calls of the effect on its collaborators. *)
Inductive LayoutCall : Type :=
| authService_setToken (token : string)
| goto (url : string).

(** One run of the effect.  [toString] is the serialisation of
    [URLSearchParams], a parameter. *)
Definition tokenEffect (toString : list (string * string) -> string)
    (storedToken : option string) (searchParams : list (string * string))
    : list LayoutCall * list (string * string) :=
  let token :=
    if truthy storedToken then storedToken
    else searchParams_get "gb_access_token" searchParams in
  match token with
  | Some value =>
      if truthy token then
        if searchParams_has "gb_access_token" searchParams then
          let searchParams := searchParams_delete "gb_access_token" searchParams in
          ([authService_setToken value; goto ("?" +:+ toString searchParams)],
           searchParams)
        else ([authService_setToken value], searchParams)
      else ([], searchParams)
  | None => ([], searchParams)
  end.

(** A serialisation for the examples, without percent-encoding. *)
Fixpoint plainQuery (params : list (string * string)) : string :=
  match params with
  | [] => ""
  | (name, value) :: rest =>
      match rest with
      | [] => name +:+ "=" +:+ value
      | _ => name +:+ "=" +:+ value +:+ "&" +:+ plainQuery rest
      end
  end.

Section Navigator.

(** [stringifyFileKey] and [unstringifyFileKey] are imports of
    [selection.ts] (from [$lib/vbranches/fileIdSelection]) and the spec fixes
    no format for a key: they are parameters. *)
Variable stringifyFileKey : string -> string.
Variable unstringifyFileKey : string -> string.

(** Decoding the key of an identifier gives the identifier back. *)
Hypothesis unstringify_stringify :
  forall i, unstringifyFileKey (stringifyFileKey i) = i.

(** ** The selection manager *)

(** Modelled from the spec: the class [FileIdSelection], of which
    [selection.ts] imports the type only.  The spec describes the selection
    as an ordered sequence of stringified file identifiers whose order
    reflects selection history, changed only through [add(id)], [remove(id)]
    and [clear()]: [add] appends the key of the identifier, [remove] drops
    it, [clear] empties the sequence. *)
Definition FileIdSelection_add (fileId : string) (value : list string) : list string :=
  value ++ [stringifyFileKey fileId].

Definition FileIdSelection_remove (fileId : string) (value : list string) : list string :=
  List.filter (fun k => negb (String.eqb k (stringifyFileKey fileId))) value.

Definition FileIdSelection_clear (value : list string) : list string := [].

(** One call replayed on the view. *)
Definition perform (v : View) (c : Call) : View :=
  match c with
  | fileIdSelection_add i =>
      {| selection := FileIdSelection_add i (selection v); focused := focused v |}
  | fileIdSelection_remove i =>
      {| selection := FileIdSelection_remove i (selection v); focused := focused v |}
  | fileIdSelection_clear =>
      {| selection := FileIdSelection_clear (selection v); focused := focused v |}
  | element_focus e =>
      {| selection := selection v; focused := Some e |}
  end.

Definition performAll (cs : list Call) (v : View) : View := fold_left perform cs v.

(** ** The handler *)

Section Body.
Variable p : MoveSelectionParams.

Definition getAndAddFile
    (getFileFunc : list AnyFile -> string -> option AnyFile) (i : string) : list Call :=
  match getFileFunc (files p) i with
  | Some file =>
      (* if file is already selected, do nothing *)
      if includes (selectedFileIds p) (stringifyFileKey (id file)) then []
      else [fileIdSelection_add (id file)]
  | None => []
  end.

Definition getAndClearAndAddFile
    (getFileFunc : list AnyFile -> string -> option AnyFile) (i : string) : list Call :=
  match getFileFunc (files p) i with
  | Some file => [fileIdSelection_clear; fileIdSelection_add (id file)]
  | None => []
  end.

(** [if (sibling) sibling.focus()] *)
Definition focusSibling (sibling : option nat) : list Call :=
  match sibling with
  | Some e => [element_focus e]
  | None => []
  end.

Definition maybeMoveSelection : Outcome :=
  if (length (selectedFileIds p) =? 0)%nat then Returned None []
  else
    match selectedFileIds p !! 0%nat,
          selectedFileIds p !! (length (selectedFileIds p) - 1)%nat with
    | Some firstKey, Some lastKey =>
        let firstFileId := unstringifyFileKey firstKey in
        let lastFileId := unstringifyFileKey lastKey in
        let selectionDirection :=
          getSelectionDirection
            (findIndex (fun f => String.eqb (id f) lastFileId) (files p))
            (findIndex (fun f => String.eqb (id f) firstFileId) (files p)) in
        if String.eqb (key p) "ArrowUp" then
          if shiftKey p && allowMultiple p then
            (* Handle case if only one file is selected
               we should update the selection direction *)
            let '(selectionDirection, removal) :=
              if (length (selectedFileIds p) =? 1)%nat then (up, [])
              else if Direction_eqb selectionDirection down
                   then (selectionDirection, [fileIdSelection_remove lastFileId])
                   else (selectionDirection, []) in
            Returned (Some selectionDirection)
              (removal ++ getAndAddFile getPreviousFile lastFileId)
          else
            (* focus previous file *)
            let previousElement := previousElementSibling (targetElement p) in
            Returned (Some selectionDirection)
              (focusSibling previousElement ++
               (* Handle reset of selection *)
               (if (1 <? length (selectedFileIds p))%nat
                then getAndClearAndAddFile getPreviousFile lastFileId
                else getAndClearAndAddFile getPreviousFile (id (file p))))
        else if String.eqb (key p) "ArrowDown" then
          if shiftKey p && allowMultiple p then
            let '(selectionDirection, removal) :=
              if (length (selectedFileIds p) =? 1)%nat then (down, [])
              else if Direction_eqb selectionDirection up
                   then (selectionDirection, [fileIdSelection_remove lastFileId])
                   else (selectionDirection, []) in
            Returned (Some selectionDirection)
              (removal ++ getAndAddFile getNextFile lastFileId)
          else
            (* focus next file *)
            let nextElement := nextElementSibling (targetElement p) in
            Returned (Some selectionDirection)
              (focusSibling nextElement ++
               (if (1 <? length (selectedFileIds p))%nat
                then getAndClearAndAddFile getNextFile lastFileId
                else getAndClearAndAddFile getNextFile (id (file p))))
        else Returned (Some selectionDirection) []
    | _, _ => Threw (* a key that is undefined cannot be decoded *)
    end.

End Body.

(** ** The shape of a call of the handler *)

(** The handler always returns, and the calls it issued have one of three
    shapes: an extension (an optional removal of the last-selected
    identifier, then the guarded addition), a reset (an optional focus
    move, then the clearing addition), or nothing. *)
Inductive Shape (p : MoveSelectionParams) (firstKey lastKey : string) : list Call -> Prop :=
| shape_grow get :
    get = getPreviousFile \/ get = getNextFile ->
    Shape p firstKey lastKey (getAndAddFile p get (unstringifyFileKey lastKey))
| shape_shrink get :
    get = getPreviousFile \/ get = getNextFile ->
    (1 < length (selectedFileIds p))%nat ->
    findIndex (fun f => String.eqb (id f) (unstringifyFileKey lastKey)) (files p) <>
    findIndex (fun f => String.eqb (id f) (unstringifyFileKey firstKey)) (files p) ->
    Shape p firstKey lastKey
      (fileIdSelection_remove (unstringifyFileKey lastKey)
         :: getAndAddFile p get (unstringifyFileKey lastKey))
| shape_reset sibling get i :
    get = getPreviousFile \/ get = getNextFile ->
    Shape p firstKey lastKey (focusSibling sibling ++ getAndClearAndAddFile p get i)
| shape_ignore :
    Shape p firstKey lastKey [].

(** The selection direction the handler computes from the two ends of the
    selection. *)
Definition directionOf (p : MoveSelectionParams) (firstKey lastKey : string) : Direction :=
  getSelectionDirection
    (findIndex (fun f => String.eqb (id f) (unstringifyFileKey lastKey)) (files p))
    (findIndex (fun f => String.eqb (id f) (unstringifyFileKey firstKey)) (files p)).

(** ** [findIndex] *)

Lemma findIndex_bounds {A : Type} (q : A -> bool) (l : list A) :
  -1 <= findIndex q l < Z.of_nat (length l).
Proof.
  induction l as [|x l IH]; simpl; [lia|].
  destruct (q x); [lia|].
  destruct (Z.eqb_spec (findIndex q l) (-1)); lia.
Qed.

Lemma findIndex_absent {A : Type} (q : A -> bool) (l : list A) :
  (forall x, x ∈ l -> q x = false) -> findIndex q l = -1.
Proof.
  induction l as [|x l IH]; intros Hall; simpl; [reflexivity|].
  rewrite (Hall x) by (left).
  rewrite IH; [reflexivity|].
  intros y Hy. apply Hall. now right.
Qed.

Lemma findIndex_first {A : Type} (q : A -> bool) (l : list A) (i : nat) (x : A) :
  l !! i = Some x -> q x = true ->
  (forall j y, (j < i)%nat -> l !! j = Some y -> q y = false) ->
  findIndex q l = Z.of_nat i.
Proof.
  revert i. induction l as [|a l IH]; intros i Hi Hx Hbefore; [discriminate|].
  destruct i as [|i]; simpl in *.
  - injection Hi as ->. now rewrite Hx.
  - rewrite (Hbefore 0%nat a) by (simpl; first [lia|reflexivity]).
    rewrite (IH i Hi Hx).
    + destruct (Z.eqb_spec (Z.of_nat i) (-1)); lia.
    + intros j y Hj Hy. apply (Hbefore (S j) y); [lia|exact Hy].
Qed.

Lemma findIndex_found {A : Type} (q : A -> bool) (l : list A) :
  findIndex q l <> -1 ->
  exists i x, findIndex q l = Z.of_nat i /\ l !! i = Some x /\ q x = true /\
              forall j y, (j < i)%nat -> l !! j = Some y -> q y = false.
Proof.
  induction l as [|a l IH]; simpl; [congruence|].
  destruct (q a) eqn:Ha.
  - intros _. exists 0%nat, a. repeat split; auto. intros j y Hj. lia.
  - destruct (Z.eqb_spec (findIndex q l) (-1)) as [|Hne]; [congruence|].
    intros _. destruct (IH Hne) as (i & x & Hi & Hl & Hq & Hbefore).
    exists (S i), x. repeat split; auto; [lia|].
    intros [|j] y Hj Hy; simpl in Hy.
    + now injection Hy as <-.
    + apply (Hbefore j y); [lia|exact Hy].
Qed.

(** [findIndex] with the identifier test computes the list position. *)
Lemma findIndex_position (fs : list AnyFile) (c : string) (i : nat) :
  position fs c i -> findIndex (fun f => String.eqb (id f) c) fs = Z.of_nat i.
Proof.
  intros [(g & Hg & Hid) Hbefore].
  apply (findIndex_first _ fs i g Hg).
  - now apply String.eqb_eq.
  - intros j y Hj Hy. apply String.eqb_neq. eauto.
Qed.

Lemma findIndex_stale (fs : list AnyFile) (c : string) :
  c ∉ map id fs -> findIndex (fun f => String.eqb (id f) c) fs = -1.
Proof.
  intros Hstale. apply findIndex_absent. intros x Hx.
  apply String.eqb_neq. intros <-. apply Hstale.
  apply list_elem_of_In, in_map, list_elem_of_In, Hx.
Qed.

Lemma findIndex_absent_inv {A : Type} (q : A -> bool) (l : list A) :
  findIndex q l = -1 -> forall x, x ∈ l -> q x = false.
Proof.
  induction l as [|a l IH]; simpl; intros He x Hx; [inversion Hx|].
  destruct (q a) eqn:Ha; [lia|].
  destruct (Z.eqb_spec (findIndex q l) (-1)) as [Hz|Hz].
  - inversion Hx; subst; auto.
  - pose proof (findIndex_bounds q l). lia.
Qed.

Lemma position_exists (fs : list AnyFile) (c : string) :
  c ∈ map id fs -> exists i, position fs c i.
Proof.
  intros Hin.
  destruct (Z.eq_dec (findIndex (fun f => String.eqb (id f) c) fs) (-1)) as [He|Hne].
  - exfalso. apply list_elem_of_In, in_map_iff in Hin as (g & Hid & Hg).
    apply list_elem_of_In in Hg.
    apply (findIndex_absent_inv _ _ He) in Hg. simpl in Hg.
    apply String.eqb_neq in Hg. congruence.
  - destruct (findIndex_found _ fs Hne) as (i & x & _ & Hl & Hq & Hbefore).
    exists i. split.
    + exists x. split; [exact Hl|]. now apply String.eqb_eq.
    + intros j g Hj Hg. apply String.eqb_neq. eauto.
Qed.

Lemma position_unique (fs : list AnyFile) (c : string) (i j : nat) :
  position fs c i -> position fs c j -> i = j.
Proof.
  intros Hi Hj. apply findIndex_position in Hi, Hj. lia.
Qed.

(** ** The lookups in terms of list positions *)

Lemma index_of_nat {A : Type} (l : list A) (i : nat) : index l (Z.of_nat i) = l !! i.
Proof.
  unfold index. destruct (Z.ltb_spec (Z.of_nat i) 0); [lia|].
  now rewrite Nat2Z.id.
Qed.

Lemma getNextFile_position (fs : list AnyFile) (c : string) (i : nat) :
  position fs c i -> getNextFile fs c = fs !! S i.
Proof.
  intros Hpos. unfold getNextFile. rewrite (findIndex_position fs c i Hpos).
  destruct (Z.eqb_spec (Z.of_nat i) (-1)); [lia|]. simpl.
  destruct (Z.ltb_spec (Z.of_nat i + 1) (Z.of_nat (length fs))).
  - replace (Z.of_nat i + 1) with (Z.of_nat (S i)) by lia. apply index_of_nat.
  - symmetry. apply lookup_ge_None. lia.
Qed.

Lemma getPreviousFile_position (fs : list AnyFile) (c : string) (i : nat) :
  position fs c i ->
  getPreviousFile fs c = match i with O => None | S j => fs !! j end.
Proof.
  intros Hpos. unfold getPreviousFile. rewrite (findIndex_position fs c i Hpos).
  destruct i as [|j].
  - reflexivity.
  - destruct (Z.ltb_spec 0 (Z.of_nat (S j))); [|lia].
    replace (Z.of_nat (S j) - 1) with (Z.of_nat j) by lia. apply index_of_nat.
Qed.

Lemma getNextFile_stale (fs : list AnyFile) (c : string) :
  c ∉ map id fs -> getNextFile fs c = None.
Proof.
  intros Hstale. unfold getNextFile. now rewrite (findIndex_stale fs c Hstale).
Qed.

Lemma getPreviousFile_stale (fs : list AnyFile) (c : string) :
  c ∉ map id fs -> getPreviousFile fs c = None.
Proof.
  intros Hstale. unfold getPreviousFile. now rewrite (findIndex_stale fs c Hstale).
Qed.

(** A lookup that succeeds was made for an identifier of the list. *)
Lemma getNextFile_Some (fs : list AnyFile) (c : string) (f : AnyFile) :
  getNextFile fs c = Some f -> exists i, position fs c i /\ fs !! S i = Some f.
Proof.
  intros Hnext.
  destruct (decide (c ∈ map id fs)) as [Hin|Hout].
  - destruct (position_exists fs c Hin) as [i Hpos]. exists i. split; [exact Hpos|].
    now rewrite <- (getNextFile_position fs c i Hpos).
  - rewrite (getNextFile_stale fs c Hout) in Hnext. discriminate.
Qed.

Lemma getPreviousFile_Some (fs : list AnyFile) (c : string) (f : AnyFile) :
  getPreviousFile fs c = Some f -> exists i, position fs c (S i) /\ fs !! i = Some f.
Proof.
  intros Hprev.
  destruct (decide (c ∈ map id fs)) as [Hin|Hout].
  - destruct (position_exists fs c Hin) as [i Hpos].
    rewrite (getPreviousFile_position fs c i Hpos) in Hprev.
    destruct i as [|j]; [discriminate|]. now exists j.
  - rewrite (getPreviousFile_stale fs c Hout) in Hprev. discriminate.
Qed.

(** The previous file never carries the identifier it was looked up for:
    it stands before the first file that does. *)
Lemma getPreviousFile_other (fs : list AnyFile) (c : string) (f : AnyFile) :
  getPreviousFile fs c = Some f -> id f <> c.
Proof.
  intros Hprev. apply getPreviousFile_Some in Hprev as (i & [_ Hbefore] & Hf).
  apply (Hbefore i f); [lia|exact Hf].
Qed.

(** ** Replaying calls *)

Lemma performAll_app (cs ds : list Call) (v : View) :
  performAll (cs ++ ds) v = performAll ds (performAll cs v).
Proof. apply fold_left_app. Qed.

Lemma selection_focusSibling (sibling : option nat) (v : View) :
  selection (performAll (focusSibling sibling) v) = selection v.
Proof. now destruct sibling. Qed.

Lemma includes_true (l : list string) (s : string) : includes l s = true <-> s ∈ l.
Proof.
  unfold includes. rewrite existsb_exists, list_elem_of_In. split.
  - intros (x & Hx & He). apply String.eqb_eq in He. now subst.
  - intros Hs. exists s. split; [exact Hs|apply String.eqb_refl].
Qed.

Lemma includes_false (l : list string) (s : string) : includes l s = false <-> s ∉ l.
Proof.
  rewrite <- includes_true. destruct (includes l s); split; congruence.
Qed.

Lemma elem_of_FileIdSelection_remove (i k : string) (value : list string) :
  k ∈ FileIdSelection_remove i value <-> k ∈ value /\ k <> stringifyFileKey i.
Proof.
  unfold FileIdSelection_remove.
  rewrite !list_elem_of_In, filter_In, negb_true_iff, String.eqb_neq. tauto.
Qed.

Lemma NoDup_FileIdSelection_remove (i : string) (value : list string) :
  NoDup value -> NoDup (FileIdSelection_remove i value).
Proof.
  intros Hnd. apply NoDup_ListNoDup. apply List.NoDup_filter.
  now apply NoDup_ListNoDup.
Qed.

Lemma NoDup_FileIdSelection_add (i : string) (value : list string) :
  NoDup value -> stringifyFileKey i ∉ value -> NoDup (FileIdSelection_add i value).
Proof.
  intros Hnd Hnew. unfold FileIdSelection_add. apply NoDup_app.
  split; [exact Hnd|]. split.
  - intros x Hx Hx'. apply list_elem_of_singleton in Hx'. now subst.
  - apply NoDup_singleton.
Qed.

(** ** The ends of the selection *)

Lemma selected_ends (sel : list string) (firstKey lastKey : string) :
  head sel = Some firstKey -> last sel = Some lastKey ->
  (length sel =? 0)%nat = false /\
  sel !! 0%nat = Some firstKey /\
  sel !! (length sel - 1)%nat = Some lastKey.
Proof.
  intros Hh Hl. rewrite head_lookup in Hh. rewrite last_lookup in Hl.
  rewrite Nat.sub_1_r. repeat split; auto.
  destruct sel; [discriminate|reflexivity].
Qed.

Lemma selected_nonempty (sel : list string) :
  sel <> [] -> exists firstKey lastKey, head sel = Some firstKey /\ last sel = Some lastKey.
Proof.
  intros Hne. destruct sel as [|k sel]; [congruence|].
  exists k. destruct (last (k :: sel)) as [lk|] eqn:Hl; [now exists lk|].
  apply last_None in Hl. discriminate.
Qed.

(** ** The shape lemma *)

Lemma getSelectionDirection_differs (a b : Z) (d : Direction) :
  getSelectionDirection a b = d -> d <> none -> a <> b.
Proof.
  unfold getSelectionDirection. intros <- Hd ->.
  rewrite Z.ltb_irrefl in Hd. congruence.
Qed.

Lemma Direction_eqb_eq (a b : Direction) : Direction_eqb a b = true <-> a = b.
Proof. destruct a, b; simpl; split; congruence. Qed.

Lemma maybeMoveSelection_shape (p : MoveSelectionParams) (firstKey lastKey : string) :
  head (selectedFileIds p) = Some firstKey ->
  last (selectedFileIds p) = Some lastKey ->
  exists dir calls,
    maybeMoveSelection p = Returned dir calls /\ Shape p firstKey lastKey calls.
Proof.
  intros Hfirst Hlast. unfold maybeMoveSelection.
  destruct (selected_ends _ _ _ Hfirst Hlast) as (-> & -> & ->).
  assert (Hmore : (length (selectedFileIds p) <> 1 -> 1 < length (selectedFileIds p))%nat).
  { pose proof (selected_ends _ _ _ Hfirst Hlast) as (Hz & _).
    apply Nat.eqb_neq in Hz. lia. }
  destruct (String.eqb (key p) "ArrowUp");
    [|destruct (String.eqb (key p) "ArrowDown")];
    [| |eexists _, _; split; [reflexivity|apply shape_ignore]].
  all: destruct (shiftKey p && allowMultiple p);
    [|destruct (1 <? length (selectedFileIds p))%nat;
      eexists _, _; (split; [reflexivity|apply shape_reset; auto])].
  all: destruct (Nat.eqb_spec (length (selectedFileIds p)) 1) as [Hone|Hmany];
    [eexists _, _; split; [reflexivity|apply shape_grow; auto]|].
  all: match goal with
       | |- context [Direction_eqb ?d ?o] => destruct (Direction_eqb d o) eqn:Hdir
       end;
    [|eexists _, _; split; [reflexivity|apply shape_grow; auto]].
  all: apply Direction_eqb_eq in Hdir.
  all: eexists _, _; split; [reflexivity|].
  all: apply shape_shrink; auto.
  all: apply (getSelectionDirection_differs _ _ _ Hdir); discriminate.
Qed.

(** The handler never throws. *)
Lemma maybeMoveSelection_returns (p : MoveSelectionParams) :
  exists dir calls, maybeMoveSelection p = Returned dir calls.
Proof.
  destruct (selectedFileIds p) as [|k sel] eqn:Hsel.
  - unfold maybeMoveSelection. rewrite Hsel. simpl. eauto.
  - destruct (selected_nonempty (selectedFileIds p)) as (fk & lk & Hf & Hl);
      [rewrite Hsel; discriminate|].
    destruct (maybeMoveSelection_shape p fk lk Hf Hl) as (dir & calls & He & _).
    eauto.
Qed.

Lemma getAndAddFile_cases (p : MoveSelectionParams)
    (get : list AnyFile -> string -> option AnyFile) (i : string) :
  (getAndAddFile p get i = [] /\
   (get (files p) i = None \/
    exists f, get (files p) i = Some f /\
              (stringifyFileKey (id f) ∈ selectedFileIds p))) \/
  (exists f, get (files p) i = Some f /\
             (stringifyFileKey (id f) ∉ selectedFileIds p) /\
             getAndAddFile p get i = [fileIdSelection_add (id f)]).
Proof.
  unfold getAndAddFile. destruct (get (files p) i) as [f|]; [|left; auto].
  destruct (includes (selectedFileIds p) (stringifyFileKey (id f))) eqn:Hinc.
  - left. split; [reflexivity|]. right. exists f. split; [reflexivity|].
    now apply includes_true.
  - right. exists f. repeat split. now apply includes_false.
Qed.

Lemma getAndClearAndAddFile_cases (p : MoveSelectionParams)
    (get : list AnyFile -> string -> option AnyFile) (i : string) :
  (get (files p) i = None /\ getAndClearAndAddFile p get i = []) \/
  (exists f, get (files p) i = Some f /\
             getAndClearAndAddFile p get i =
             [fileIdSelection_clear; fileIdSelection_add (id f)]).
Proof.
  unfold getAndClearAndAddFile. destruct (get (files p) i) as [f|]; eauto.
Qed.

(** Unfolds the handler on a selection whose ends are known. *)
Ltac enter_handler Hfirst Hlast :=
  unfold maybeMoveSelection;
  destruct (selected_ends _ _ _ Hfirst Hlast) as (-> & -> & ->).

(** ** Calls that do nothing *)

Lemma maybeMoveSelection_empty (p : MoveSelectionParams) :
  selectedFileIds p = [] -> maybeMoveSelection p = Returned None [].
Proof. intros Hsel. unfold maybeMoveSelection. now rewrite Hsel. Qed.

(** C7: with an empty [selectedFileIds] the handler returns at once, without
    an error: it issues no call on the selection manager and moves no
    focus, so every view is left as it was. *)
Theorem empty_selection_is_noop (p : MoveSelectionParams) :
  selectedFileIds p = [] ->
  maybeMoveSelection p = Returned None [] /\
  forall dir calls v, maybeMoveSelection p = Returned dir calls -> performAll calls v = v.
Proof.
  intros Hsel. pose proof (maybeMoveSelection_empty p Hsel) as He.
  split; [exact He|].
  intros dir calls v Hret. rewrite He in Hret. now injection Hret as _ <-.
Qed.

(** C8: a key other than [ArrowUp] and [ArrowDown] is ignored: the handler
    returns without a call, so the selection and the focused element are
    unchanged. *)
Theorem other_keys_are_ignored (p : MoveSelectionParams) :
  key p <> "ArrowUp" -> key p <> "ArrowDown" ->
  exists dir,
    maybeMoveSelection p = Returned dir [] /\
    forall v, selection (performAll [] v) = selection v /\
              focused (performAll [] v) = focused v.
Proof.
  intros Hup Hdown.
  destruct (selectedFileIds p) as [|k sel] eqn:Hsel.
  - exists None. split; [|auto].
    apply maybeMoveSelection_empty, Hsel.
  - destruct (selected_nonempty (selectedFileIds p)) as (fk & lk & Hf & Hl);
      [rewrite Hsel; discriminate|].
    apply String.eqb_neq in Hup, Hdown.
    enter_handler Hf Hl. rewrite Hup, Hdown. eauto.
Qed.

(** ** Reversing an extension *)

(** C2: with the extend modifier held, multiple selection allowed, more
    than one identifier selected and an arrow key that opposes the current
    selection direction, the first call of the handler removes the
    last-selected identifier; what follows is the attempt to add the
    adjacent file, at most one call.  Replayed on the manager, the removal
    takes the identifier out of the selection, and it is not in the
    selection when the handler is done. *)
Theorem reversal_removes_last_first
    (p : MoveSelectionParams) (firstKey lastKey : string) :
  shiftKey p = true -> allowMultiple p = true ->
  (1 < length (selectedFileIds p))%nat ->
  head (selectedFileIds p) = Some firstKey ->
  last (selectedFileIds p) = Some lastKey ->
  let lastFileId := unstringifyFileKey lastKey in
  let current :=
    getSelectionDirection
      (findIndex (fun f => String.eqb (id f) lastFileId) (files p))
      (findIndex (fun f => String.eqb (id f) (unstringifyFileKey firstKey)) (files p)) in
  (key p = "ArrowUp" /\ current = down) \/ (key p = "ArrowDown" /\ current = up) ->
  exists attempt,
    maybeMoveSelection p =
      Returned (Some current) (fileIdSelection_remove lastFileId :: attempt) /\
    (key p = "ArrowUp" -> attempt = getAndAddFile p getPreviousFile lastFileId) /\
    (key p = "ArrowDown" -> attempt = getAndAddFile p getNextFile lastFileId) /\
    (attempt = [] \/ exists f, attempt = [fileIdSelection_add (id f)]) /\
    (forall v, stringifyFileKey lastFileId ∉
               selection (perform v (fileIdSelection_remove lastFileId))) /\
    (forall v, selection v = selectedFileIds p ->
               stringifyFileKey lastFileId = lastKey ->
               lastKey ∉ selection
                 (performAll (fileIdSelection_remove lastFileId :: attempt) v)).
Proof.
  intros Hshift Hallow Hmany Hfirst Hlast lastFileId current Hopp.
  assert (Hlen : (length (selectedFileIds p) =? 1)%nat = false)
    by (apply Nat.eqb_neq; lia).
  assert (Hin : lastKey ∈ selectedFileIds p).
  { rewrite last_lookup in Hlast. eapply list_elem_of_lookup_2, Hlast. }
  assert (Hgone : forall v, stringifyFileKey lastFileId ∉
                    selection (perform v (fileIdSelection_remove lastFileId))).
  { intros v. simpl. rewrite elem_of_FileIdSelection_remove. tauto. }
  assert (Hfinal : forall get v,
             selection v = selectedFileIds p ->
             stringifyFileKey lastFileId = lastKey ->
             lastKey ∉ selection
               (performAll (fileIdSelection_remove lastFileId
                              :: getAndAddFile p get lastFileId) v)).
  { intros get v Hsync Hcanon.
    destruct (getAndAddFile_cases p get lastFileId)
      as [[-> _]|(f & _ & Hnew & ->)]; simpl.
    - rewrite elem_of_FileIdSelection_remove. intuition congruence.
    - unfold FileIdSelection_add. rewrite elem_of_app, elem_of_FileIdSelection_remove.
      rewrite list_elem_of_singleton. intros [[_ Hne]|He]; [congruence|].
      apply Hnew. now rewrite <- He. }
  assert (Hattempt : forall get,
             getAndAddFile p get lastFileId = [] \/
             exists f, getAndAddFile p get lastFileId = [fileIdSelection_add (id f)]).
  { intros get. destruct (getAndAddFile_cases p get lastFileId)
      as [[-> _]|(f & _ & _ & ->)]; eauto. }
  destruct Hopp as [[Hkey Hdir]|[Hkey Hdir]].
  - exists (getAndAddFile p getPreviousFile lastFileId).
    split; [|repeat split; auto; rewrite Hkey; discriminate].
    enter_handler Hfirst Hlast. rewrite Hkey, Hshift, Hallow, Hlen. simpl.
    fold lastFileId. fold current. now rewrite Hdir.
  - exists (getAndAddFile p getNextFile lastFileId).
    split; [|repeat split; auto; rewrite Hkey; discriminate].
    enter_handler Hfirst Hlast. rewrite Hkey, Hshift, Hallow, Hlen. simpl.
    fold lastFileId. fold current. now rewrite Hdir.
Qed.

(** ** The adjacent files *)

(** C4: an identifier that occurs in the file list has one list position
    [i]; [getNextFile] returns the item at [i + 1] when that is within
    bounds and undefined otherwise, [getPreviousFile] the item at [i - 1]
    when [i] is greater than 0 and undefined otherwise. *)
Theorem adjacent_files_by_position (fs : list AnyFile) (currentId : string) :
  currentId ∈ map id fs ->
  exists i,
    position fs currentId i /\
    (forall j, position fs currentId j -> j = i) /\
    ((i + 1 < length fs)%nat ->
     exists f, fs !! (i + 1)%nat = Some f /\ getNextFile fs currentId = Some f) /\
    ((length fs <= i + 1)%nat -> getNextFile fs currentId = None) /\
    ((0 < i)%nat ->
     exists f, fs !! (i - 1)%nat = Some f /\ getPreviousFile fs currentId = Some f) /\
    (i = 0%nat -> getPreviousFile fs currentId = None).
Proof.
  intros Hin. destruct (position_exists fs currentId Hin) as [i Hpos].
  exists i. split; [exact Hpos|].
  split; [intros j Hj; apply (position_unique fs currentId j i Hj Hpos)|].
  rewrite (getNextFile_position fs currentId i Hpos).
  rewrite (getPreviousFile_position fs currentId i Hpos).
  replace (i + 1)%nat with (S i) by lia.
  repeat split.
  - intros Hlt. destruct (lookup_lt_is_Some_2 fs (S i) Hlt) as [f Hf]. eauto.
  - intros Hge. now apply lookup_ge_None.
  - intros Hgt. destruct i as [|j]; [lia|].
    replace (S j - 1)%nat with j by lia.
    destruct (lookup_lt_is_Some_2 fs j) as [f Hf]; [|eauto].
    destruct Hpos as [(g & Hg & _) _]. apply lookup_lt_Some in Hg. lia.
  - now intros ->.
Qed.

(** ** Leaving a multiple selection with [ArrowDown] *)

(** C3: [ArrowDown] without the extend modifier on a selection of more
    than one identifier: when a file stands right after the list position
    of the last-selected identifier, the selection becomes exactly that
    file's key; when the last-selected identifier is at the last position
    of the list, the selection is unchanged. *)
Theorem arrow_down_collapses_selection (p : MoveSelectionParams) (lastKey : string) :
  key p = "ArrowDown" -> shiftKey p = false ->
  (1 < length (selectedFileIds p))%nat ->
  last (selectedFileIds p) = Some lastKey ->
  exists dir calls,
    maybeMoveSelection p = Returned dir calls /\
    forall v i,
      position (files p) (unstringifyFileKey lastKey) i ->
      (forall f, files p !! (i + 1)%nat = Some f ->
                 selection (performAll calls v) = [stringifyFileKey (id f)]) /\
      (length (files p) = (i + 1)%nat ->
       selection (performAll calls v) = selection v).
Proof.
  intros Hkey Hshift Hmany Hlast.
  destruct (selected_nonempty (selectedFileIds p)) as (fk & lk & Hfirst & Hlast').
  { intros He. rewrite He in Hmany. simpl in Hmany. lia. }
  assert (lk = lastKey) as -> by congruence.
  apply Nat.ltb_lt in Hmany.
  enter_handler Hfirst Hlast. rewrite Hkey, Hshift, Hmany. simpl.
  eexists _, _. split; [reflexivity|].
  intros v i Hpos. rewrite performAll_app. unfold getAndClearAndAddFile.
  rewrite (getNextFile_position _ _ i Hpos).
  replace (i + 1)%nat with (S i) by lia. split.
  - intros f Hf. now rewrite Hf.
  - intros Hend. rewrite (lookup_ge_None_2 (files p) (S i)) by lia.
    apply selection_focusSibling.
Qed.

(** ** The key codec *)

Lemma stringifyFileKey_inj (i j : string) :
  stringifyFileKey i = stringifyFileKey j -> i = j.
Proof.
  intros He. rewrite <- (unstringify_stringify i), <- (unstringify_stringify j).
  now rewrite He.
Qed.

Lemma stringifyFileKey_eqb (i j : string) :
  String.eqb (stringifyFileKey i) (stringifyFileKey j) = String.eqb i j.
Proof.
  destruct (String.eqb_spec i j) as [->|Hne]; [apply String.eqb_refl|].
  apply String.eqb_neq. intros He. now apply Hne, stringifyFileKey_inj.
Qed.

(** ** Starting an extension upwards *)

(** C5, as the code has it: on a selection of exactly one identifier,
    [ArrowUp] with the extend modifier and multiple selection allowed sets
    the selection direction to [up]; when the selected file has a previous
    file in the list, that file is added and the selection grows to size 2;
    when it has none, nothing is called and the selection keeps its one
    identifier. *)
Theorem extend_up_from_single (p : MoveSelectionParams) (k : string) :
  selectedFileIds p = [k] ->
  key p = "ArrowUp" -> shiftKey p = true -> allowMultiple p = true ->
  exists calls,
    maybeMoveSelection p = Returned (Some up) calls /\
    match getPreviousFile (files p) (unstringifyFileKey k) with
    | Some f =>
        calls = [fileIdSelection_add (id f)] /\
        forall v, selection v = [k] ->
                  selection (performAll calls v) = [k; stringifyFileKey (id f)] /\
                  length (selection (performAll calls v)) = 2%nat
    | None =>
        calls = [] /\
        forall v, selection v = [k] -> selection (performAll calls v) = [k]
    end.
Proof.
  intros Hsel Hkey Hshift Hallow.
  unfold maybeMoveSelection, getAndAddFile.
  rewrite Hsel, Hkey, Hshift, Hallow. simpl.
  destruct (getPreviousFile (files p) (unstringifyFileKey k)) as [f|] eqn:Hprev.
  - assert (Hfresh : String.eqb (stringifyFileKey (id f)) k = false).
    { apply String.eqb_neq. intros <-.
      apply (getPreviousFile_other _ _ _ Hprev).
      now rewrite unstringify_stringify. }
    rewrite Hfresh. simpl. eexists. split; [reflexivity|].
    split; [reflexivity|]. intros v Hv. simpl. unfold FileIdSelection_add.
    now rewrite Hv.
  - eexists. split; [reflexivity|]. split; [reflexivity|]. now intros v Hv.
Qed.

(** ** Invariants of the selection *)

Lemma getAndAddFile_NoDup (p : MoveSelectionParams)
    (get : list AnyFile -> string -> option AnyFile) (i : string) (v : View) :
  (forall k, k ∈ selection v -> k ∈ selectedFileIds p) ->
  NoDup (selection v) ->
  NoDup (selection (performAll (getAndAddFile p get i) v)).
Proof.
  intros Hsub Hnd.
  destruct (getAndAddFile_cases p get i) as [[-> _]|(f & _ & Hnew & ->)]; simpl.
  - exact Hnd.
  - apply NoDup_FileIdSelection_add; [exact Hnd|]. intros Hk. apply Hnew, Hsub, Hk.
Qed.

(** Whatever the handler calls, a duplicate-free selection stays so. *)
Lemma maybeMoveSelection_NoDup (p : MoveSelectionParams)
    (dir : option Direction) (calls : list Call) (v : View) :
  maybeMoveSelection p = Returned dir calls ->
  selection v = selectedFileIds p ->
  NoDup (selection v) ->
  NoDup (selection (performAll calls v)).
Proof.
  intros Hret Hsync Hnd.
  destruct (selectedFileIds p) as [|k0 sel] eqn:Hsel.
  - rewrite (maybeMoveSelection_empty p Hsel) in Hret.
    now injection Hret as _ <-.
  - destruct (selected_nonempty (selectedFileIds p)) as (fk & lk & Hf & Hl);
      [rewrite Hsel; discriminate|].
    destruct (maybeMoveSelection_shape p fk lk Hf Hl) as (dir' & calls' & Hret' & Hshape).
    rewrite Hret' in Hret. injection Hret as _ <-. rewrite <- Hsel in Hsync.
    destruct Hshape as [get _|get _ _ _|sibling get i _|].
    + apply getAndAddFile_NoDup; [|exact Hnd]. intros k Hk. now rewrite <- Hsync.
    + change (NoDup (selection
                (performAll (getAndAddFile p get (unstringifyFileKey lk))
                   (perform v (fileIdSelection_remove (unstringifyFileKey lk)))))).
      apply getAndAddFile_NoDup; simpl.
      * intros k Hk. apply elem_of_FileIdSelection_remove in Hk as [Hk _].
        now rewrite <- Hsync.
      * now apply NoDup_FileIdSelection_remove.
    + rewrite performAll_app.
      destruct (getAndClearAndAddFile_cases p get i) as [[_ ->]|(f & _ & ->)]; simpl.
      * now rewrite selection_focusSibling.
      * apply NoDup_singleton.
    + exact Hnd.
Qed.

(** C6: with the extend modifier held, an adjacent file whose key is
    already in [selectedFileIds] is not added again (the extension issues no
    [add] call for it), and a selection without duplicates has none after
    the call. *)
Theorem extension_never_duplicates (p : MoveSelectionParams) :
  shiftKey p = true ->
  exists dir calls,
    maybeMoveSelection p = Returned dir calls /\
    (allowMultiple p = true ->
     forall lastKey f,
       last (selectedFileIds p) = Some lastKey ->
       (key p = "ArrowUp" /\
        getPreviousFile (files p) (unstringifyFileKey lastKey) = Some f) \/
       (key p = "ArrowDown" /\
        getNextFile (files p) (unstringifyFileKey lastKey) = Some f) ->
       stringifyFileKey (id f) ∈ selectedFileIds p ->
       forall i, fileIdSelection_add i ∉ calls) /\
    (forall v, selection v = selectedFileIds p ->
               NoDup (selection v) -> NoDup (selection (performAll calls v))).
Proof.
  intros Hshift.
  destruct (maybeMoveSelection_returns p) as (dir & calls & Hret).
  exists dir, calls. split; [exact Hret|]. split.
  - intros Hallow lastKey f Hlast Hadj Hsel i.
    destruct (selected_nonempty (selectedFileIds p)) as (fk & lk & Hfirst & Hlast').
    { intros He. rewrite He in Hlast. discriminate. }
    assert (lk = lastKey) as -> by congruence.
    apply includes_true in Hsel.
    revert Hret. enter_handler Hfirst Hlast.
    destruct Hadj as [[Hkey Hf]|[Hkey Hf]];
      rewrite Hkey, Hshift, Hallow; simpl;
      unfold getAndAddFile; rewrite Hf, Hsel;
      destruct (length (selectedFileIds p) =? 1)%nat;
      try match goal with
        | |- context [Direction_eqb ?d ?o] => destruct (Direction_eqb d o)
        end;
      intros [= _ <-]; simpl;
      rewrite ?list_elem_of_singleton; try apply not_elem_of_nil; discriminate.
  - intros v. now apply maybeMoveSelection_NoDup with (dir := dir).
Qed.

(** C9: a call on a selection that is not empty leaves it not empty.  Each
    [clear] the handler calls is followed at once by the [add] of a file of
    the list, the last call of the handler, and a [remove] is called only
    when more than one identifier is selected. *)
Theorem selection_never_emptied (p : MoveSelectionParams) (v : View) :
  selection v = selectedFileIds p ->
  selectedFileIds p <> [] ->
  exists dir calls,
    maybeMoveSelection p = Returned dir calls /\
    selection (performAll calls v) <> [] /\
    (forall before after,
       calls = before ++ fileIdSelection_clear :: after ->
       exists f, f ∈ files p /\ after = [fileIdSelection_add (id f)]) /\
    (forall i, fileIdSelection_remove i ∈ calls ->
               (1 < length (selectedFileIds p))%nat).
Proof.
  intros Hsync Hne.
  destruct (selected_nonempty _ Hne) as (fk & lk & Hfirst & Hlast).
  destruct (maybeMoveSelection_shape p fk lk Hfirst Hlast)
    as (dir & calls & Hret & Hshape).
  exists dir, calls. split; [exact Hret|].
  assert (Hv : selection v <> []) by now rewrite Hsync.
  assert (Hgrow : forall get w, selection w <> [] ->
            selection (performAll (getAndAddFile p get (unstringifyFileKey lk)) w) <> []).
  { intros get w Hw.
    destruct (getAndAddFile_cases p get (unstringifyFileKey lk))
      as [[-> _]|(f & _ & _ & ->)]; simpl; [exact Hw|].
    unfold FileIdSelection_add. destruct (selection w); discriminate. }
  assert (Hplain : forall get before after,
            getAndAddFile p get (unstringifyFileKey lk) <>
            before ++ fileIdSelection_clear :: after).
  { intros get before after.
    destruct (getAndAddFile_cases p get (unstringifyFileKey lk))
      as [[-> _]|(f & _ & _ & ->)];
      destruct before as [|c [|c' before]]; discriminate. }
  assert (Hkeep : forall get i,
            fileIdSelection_remove i ∉ getAndAddFile p get (unstringifyFileKey lk)).
  { intros get i.
    destruct (getAndAddFile_cases p get (unstringifyFileKey lk))
      as [[-> _]|(f & _ & _ & ->)];
      rewrite ?list_elem_of_singleton; try apply not_elem_of_nil; discriminate. }
  destruct Hshape as [get _|get _ Hmany Hdiff|sibling get i Hget|].
  - repeat split.
    + now apply Hgrow.
    + intros before after He. now apply Hplain in He.
    + intros i Hi. now apply Hkeep in Hi.
  - repeat split.
    + change (selection
                (performAll (getAndAddFile p get (unstringifyFileKey lk))
                   (perform v (fileIdSelection_remove (unstringifyFileKey lk)))) <> []).
      apply Hgrow. simpl. intros Hempty.
      assert (Hin : fk ∈ FileIdSelection_remove (unstringifyFileKey lk) (selection v)).
      { apply elem_of_FileIdSelection_remove. split.
        - rewrite Hsync. rewrite head_lookup in Hfirst.
          eapply list_elem_of_lookup_2, Hfirst.
        - intros ->. apply Hdiff. now rewrite unstringify_stringify. }
      rewrite Hempty in Hin. now apply not_elem_of_nil in Hin.
    + intros [|c before] after He; simpl in He; [discriminate|].
      injection He as _ He. now apply Hplain in He.
    + intros _ _. exact Hmany.
  - assert (Hfile : forall f, get (files p) i = Some f -> f ∈ files p).
    { intros f Hf. destruct Hget as [->| ->].
      - apply getPreviousFile_Some in Hf as (j & _ & Hj).
        eapply list_elem_of_lookup_2, Hj.
      - apply getNextFile_Some in Hf as (j & _ & Hj).
        eapply list_elem_of_lookup_2, Hj. }
    destruct (getAndClearAndAddFile_cases p get i) as [[_ ->]|(f & Hf & ->)];
      rewrite ?performAll_app; repeat split.
    + simpl. now rewrite selection_focusSibling.
    + intros before after He. rewrite app_nil_r in He.
      destruct sibling; destruct before as [|c [|c' before]]; discriminate.
    + intros j Hj. rewrite app_nil_r in Hj.
      destruct sibling; simpl in Hj;
        rewrite ?list_elem_of_singleton in Hj;
        [discriminate|now apply not_elem_of_nil in Hj].
    + discriminate.
    + intros before after He. exists f. split; [now apply Hfile|].
      destruct sibling; simpl in He;
        destruct before as [|c [|c' [|c'' before]]]; simpl in He;
        try discriminate; try (now injection He as <-);
        try (injection He; intros; subst; reflexivity);
        injection He; intros; try discriminate;
        destruct before; discriminate.
    + intros j Hj. apply elem_of_app in Hj as [Hj|Hj].
      * destruct sibling; simpl in Hj;
          rewrite ?list_elem_of_singleton in Hj;
          [discriminate|now apply not_elem_of_nil in Hj].
      * apply elem_of_cons in Hj as [Hj|Hj]; [discriminate|].
        apply list_elem_of_singleton in Hj. discriminate.
  - repeat split.
    + exact Hv.
    + intros [|c before] after He; discriminate.
    + intros i Hi. now apply not_elem_of_nil in Hi.
Qed.

(** ** A stale identifier *)

(** C10, as the code has it: for an identifier that is not in the file
    list both lookups return undefined; a call whose last-selected
    identifier is stale adds nothing when the lookup is made for that
    identifier, which is on the extension path and whenever more than one
    identifier is selected. *)
Theorem stale_identifier_adds_nothing (fs : list AnyFile) (c : string) :
  c ∉ map id fs ->
  getNextFile fs c = None /\
  getPreviousFile fs c = None /\
  forall p lastKey,
    files p = fs ->
    last (selectedFileIds p) = Some lastKey ->
    unstringifyFileKey lastKey = c ->
    (shiftKey p && allowMultiple p = true) \/ (1 < length (selectedFileIds p))%nat ->
    exists dir calls,
      maybeMoveSelection p = Returned dir calls /\
      forall i, fileIdSelection_add i ∉ calls.
Proof.
  intros Hstale.
  pose proof (getNextFile_stale fs c Hstale) as Hnext.
  pose proof (getPreviousFile_stale fs c Hstale) as Hprev.
  split; [exact Hnext|]. split; [exact Hprev|].
  intros p lastKey Hfiles Hlast Hc Hpath.
  destruct (selected_nonempty (selectedFileIds p)) as (fk & lk & Hfirst & Hlast').
  { intros He. rewrite He in Hlast. discriminate. }
  assert (lk = lastKey) as -> by congruence.
  enter_handler Hfirst Hlast. unfold getAndAddFile, getAndClearAndAddFile.
  rewrite Hfiles, Hc, Hnext, Hprev.
  assert (Hfocus : forall sibling i, fileIdSelection_add i ∉ focusSibling sibling ++ []).
  { intros [e|] i; simpl; rewrite ?list_elem_of_singleton;
      try apply not_elem_of_nil; discriminate. }
  destruct (String.eqb (key p) "ArrowUp");
    [|destruct (String.eqb (key p) "ArrowDown")];
    [| |eexists _, _; split; [reflexivity|intros i; apply not_elem_of_nil]].
  all: destruct (shiftKey p && allowMultiple p) eqn:Hextend.
  all: try (destruct (length (selectedFileIds p) =? 1)%nat;
            try match goal with
              | |- context [Direction_eqb ?d ?o] => destruct (Direction_eqb d o)
              end;
            simpl; eexists _, _; (split; [reflexivity|]); intros i;
            rewrite ?list_elem_of_singleton; try apply not_elem_of_nil;
            discriminate).
  all: destruct Hpath as [Hpath|Hpath]; [discriminate|].
  all: apply Nat.ltb_lt in Hpath; rewrite Hpath.
  all: eexists _, _; (split; [reflexivity|]); apply Hfocus.
Qed.

(** ** The reversal example *)

(** C1, as the code has it: on the files A, B, C, D with B selected,
    [ArrowDown] with the extend modifier sets the direction to [down] and
    adds C, so the selection is B, C; [ArrowUp] with the extend modifier
    then removes C and adds nothing, since the file before C is B, which
    is selected: the selection is B again. *)
Theorem reversal_example (current : AnyFile) (v : View) :
  let B := stringifyFileKey "B" in
  let C := stringifyFileKey "C" in
  selection v = [B] ->
  let extended := performAll [fileIdSelection_add "C"] v in
  maybeMoveSelection (press "ArrowDown" true current exampleFiles [B]) =
    Returned (Some down) [fileIdSelection_add "C"] /\
  selection extended = [B; C] /\
  maybeMoveSelection (press "ArrowUp" true current exampleFiles [B; C]) =
    Returned (Some down) [fileIdSelection_remove "C"] /\
  selection (performAll [fileIdSelection_remove "C"] extended) = [B].
Proof.
  intros B C Hv extended. subst B C extended.
  unfold maybeMoveSelection, getAndAddFile. simpl.
  rewrite !unstringify_stringify. simpl.
  rewrite !stringifyFileKey_eqb, Hv. simpl.
  unfold FileIdSelection_remove, FileIdSelection_add. simpl.
  rewrite !stringifyFileKey_eqb. simpl.
  repeat split; reflexivity.
Qed.

(** * Further properties of the lookups *)

Lemma lookup_map_id (fs : list AnyFile) (i : nat) (g : AnyFile) :
  fs !! i = Some g -> map id fs !! i = Some (id g).
Proof.
  revert i. induction fs as [|a fs IH]; intros [|i] Hg; try discriminate; simpl in *.
  - now injection Hg as ->.
  - now apply IH.
Qed.

(** In a list whose identifiers are distinct every place is the position of
    the identifier it holds. *)
Lemma position_of_lookup (fs : list AnyFile) (i : nat) (g : AnyFile) :
  NoDup (map id fs) -> fs !! i = Some g -> position fs (id g) i.
Proof.
  intros Hnd Hg. split; [now exists g|].
  intros j h Hj Hh He.
  apply lookup_map_id in Hg, Hh. rewrite He in Hh.
  pose proof (NoDup_lookup _ _ _ _ Hnd Hg Hh). lia.
Qed.

(** A lookup that succeeds was made for an identifier of the list and
    returns a file of the list; the previous file never carries the
    identifier it was looked up for, and neither does the next one when the
    identifiers of the list are distinct. *)
Theorem lookups_return_other_listed_files
    (fs : list AnyFile) (c : string) (f : AnyFile) :
  getNextFile fs c = Some f \/ getPreviousFile fs c = Some f ->
  f ∈ fs /\ c ∈ map id fs /\
  (getPreviousFile fs c = Some f -> id f <> c) /\
  (NoDup (map id fs) -> id f <> c).
Proof.
  intros Hfound.
  assert (Hpos : exists i j, position fs c i /\ fs !! j = Some f /\ i <> j).
  { destruct Hfound as [Hf|Hf].
    - apply getNextFile_Some in Hf as (i & Hpos & Hf). exists i, (S i). auto.
    - apply getPreviousFile_Some in Hf as (i & Hpos & Hf). exists (S i), i. auto. }
  destruct Hpos as (i & j & Hpos & Hf & Hij).
  split; [eapply list_elem_of_lookup_2, Hf|]. split.
  - destruct Hpos as [(g & Hg & <-) _].
    eapply list_elem_of_lookup_2, lookup_map_id, Hg.
  - split; [apply getPreviousFile_other|].
    intros Hnd He. apply Hij.
    apply (position_unique fs c i j Hpos). rewrite <- He.
    now apply position_of_lookup.
Qed.

(** On a list whose identifiers are distinct the two lookups undo each
    other: the file before the next file of [c], and the file after the
    previous file of [c], is the file with identifier [c]. *)
Theorem next_and_previous_are_inverse (fs : list AnyFile) (c : string) (f : AnyFile) :
  NoDup (map id fs) ->
  (getNextFile fs c = Some f ->
   exists g, getPreviousFile fs (id f) = Some g /\ id g = c /\ g ∈ fs) /\
  (getPreviousFile fs c = Some f ->
   exists g, getNextFile fs (id f) = Some g /\ id g = c /\ g ∈ fs).
Proof.
  intros Hnd. split; intros Hf.
  - apply getNextFile_Some in Hf as (i & Hpos & Hf).
    pose proof (position_of_lookup fs (S i) f Hnd Hf) as Hpos'.
    rewrite (getPreviousFile_position fs (id f) (S i) Hpos').
    destruct Hpos as [(g & Hg & Hid) _]. exists g.
    repeat split; auto. eapply list_elem_of_lookup_2, Hg.
  - apply getPreviousFile_Some in Hf as (i & Hpos & Hf).
    pose proof (position_of_lookup fs i f Hnd Hf) as Hpos'.
    rewrite (getNextFile_position fs (id f) i Hpos').
    destruct Hpos as [(g & Hg & Hid) _]. exists g.
    repeat split; auto. eapply list_elem_of_lookup_2, Hg.
Qed.

(** * Further properties of the handler *)

(** ** The four branches as equations *)

Lemma extension_up_eq (p : MoveSelectionParams) (firstKey lastKey : string) :
  head (selectedFileIds p) = Some firstKey ->
  last (selectedFileIds p) = Some lastKey ->
  shiftKey p && allowMultiple p = true -> key p = "ArrowUp" ->
  maybeMoveSelection p =
    Returned
      (Some (if (length (selectedFileIds p) =? 1)%nat then up
             else directionOf p firstKey lastKey))
      ((if (length (selectedFileIds p) =? 1)%nat then []
        else if Direction_eqb (directionOf p firstKey lastKey) down
             then [fileIdSelection_remove (unstringifyFileKey lastKey)]
             else [])
       ++ getAndAddFile p getPreviousFile (unstringifyFileKey lastKey)).
Proof.
  intros Hfirst Hlast Hext Hkey. enter_handler Hfirst Hlast.
  rewrite Hkey, Hext. simpl. fold (directionOf p firstKey lastKey).
  destruct (length (selectedFileIds p) =? 1)%nat; [reflexivity|].
  now destruct (Direction_eqb (directionOf p firstKey lastKey) down).
Qed.

Lemma extension_down_eq (p : MoveSelectionParams) (firstKey lastKey : string) :
  head (selectedFileIds p) = Some firstKey ->
  last (selectedFileIds p) = Some lastKey ->
  shiftKey p && allowMultiple p = true -> key p = "ArrowDown" ->
  maybeMoveSelection p =
    Returned
      (Some (if (length (selectedFileIds p) =? 1)%nat then down
             else directionOf p firstKey lastKey))
      ((if (length (selectedFileIds p) =? 1)%nat then []
        else if Direction_eqb (directionOf p firstKey lastKey) up
             then [fileIdSelection_remove (unstringifyFileKey lastKey)]
             else [])
       ++ getAndAddFile p getNextFile (unstringifyFileKey lastKey)).
Proof.
  intros Hfirst Hlast Hext Hkey. enter_handler Hfirst Hlast.
  rewrite Hkey, Hext. simpl. fold (directionOf p firstKey lastKey).
  destruct (length (selectedFileIds p) =? 1)%nat; [reflexivity|].
  now destruct (Direction_eqb (directionOf p firstKey lastKey) up).
Qed.

Lemma reset_up_eq (p : MoveSelectionParams) (firstKey lastKey : string) :
  head (selectedFileIds p) = Some firstKey ->
  last (selectedFileIds p) = Some lastKey ->
  shiftKey p && allowMultiple p = false -> key p = "ArrowUp" ->
  maybeMoveSelection p =
    Returned (Some (directionOf p firstKey lastKey))
      (focusSibling (previousElementSibling (targetElement p)) ++
       getAndClearAndAddFile p getPreviousFile
         (if (1 <? length (selectedFileIds p))%nat
          then unstringifyFileKey lastKey else id (file p))).
Proof.
  intros Hfirst Hlast Hext Hkey. enter_handler Hfirst Hlast.
  rewrite Hkey, Hext. simpl. fold (directionOf p firstKey lastKey).
  now destruct (1 <? length (selectedFileIds p))%nat.
Qed.

Lemma reset_down_eq (p : MoveSelectionParams) (firstKey lastKey : string) :
  head (selectedFileIds p) = Some firstKey ->
  last (selectedFileIds p) = Some lastKey ->
  shiftKey p && allowMultiple p = false -> key p = "ArrowDown" ->
  maybeMoveSelection p =
    Returned (Some (directionOf p firstKey lastKey))
      (focusSibling (nextElementSibling (targetElement p)) ++
       getAndClearAndAddFile p getNextFile
         (if (1 <? length (selectedFileIds p))%nat
          then unstringifyFileKey lastKey else id (file p))).
Proof.
  intros Hfirst Hlast Hext Hkey. enter_handler Hfirst Hlast.
  rewrite Hkey, Hext. simpl. fold (directionOf p firstKey lastKey).
  now destruct (1 <? length (selectedFileIds p))%nat.
Qed.

(** ** What each helper can call *)

Lemma lookup_listed (get : list AnyFile -> string -> option AnyFile)
    (fs : list AnyFile) (c : string) (f : AnyFile) :
  get = getPreviousFile \/ get = getNextFile -> get fs c = Some f -> f ∈ fs.
Proof.
  intros [->| ->] Hf.
  - apply getPreviousFile_Some in Hf as (j & _ & Hj). eapply list_elem_of_lookup_2, Hj.
  - apply getNextFile_Some in Hf as (j & _ & Hj). eapply list_elem_of_lookup_2, Hj.
Qed.




Lemma remove_not_in_getAndAddFile (p : MoveSelectionParams)
    (get : list AnyFile -> string -> option AnyFile) (i j : string) :
  fileIdSelection_remove j ∉ getAndAddFile p get i.
Proof.
  destruct (getAndAddFile_cases p get i) as [[-> _]|(f & _ & _ & ->)];
    rewrite ?list_elem_of_singleton; try apply not_elem_of_nil; discriminate.
Qed.

Lemma clear_not_in_getAndAddFile (p : MoveSelectionParams)
    (get : list AnyFile -> string -> option AnyFile) (i : string) :
  fileIdSelection_clear ∉ getAndAddFile p get i.
Proof.
  destruct (getAndAddFile_cases p get i) as [[-> _]|(f & _ & _ & ->)];
    rewrite ?list_elem_of_singleton; try apply not_elem_of_nil; discriminate.
Qed.

Lemma remove_not_in_reset (p : MoveSelectionParams) (sibling : option nat)
    (get : list AnyFile -> string -> option AnyFile) (i j : string) :
  fileIdSelection_remove j ∉ focusSibling sibling ++ getAndClearAndAddFile p get i.
Proof.
  destruct (getAndClearAndAddFile_cases p get i) as [[_ ->]|(f & _ & ->)];
    destruct sibling; simpl; rewrite list_elem_of_In; simpl;
    intuition discriminate.
Qed.

(** ** The focus *)


(** ** When the handler removes *)

(** The handler calls [remove] exactly when it reverses an extension: with
    the extend modifier held, multiple selection allowed, more than one
    identifier selected and an arrow key that opposes the selection
    direction; the identifier it removes is the last-selected one. *)
Theorem removal_exactly_on_reversal
    (p : MoveSelectionParams) (firstKey lastKey : string) :
  head (selectedFileIds p) = Some firstKey ->
  last (selectedFileIds p) = Some lastKey ->
  exists dir calls,
    maybeMoveSelection p = Returned dir calls /\
    forall i,
      fileIdSelection_remove i ∈ calls <->
      i = unstringifyFileKey lastKey /\
      shiftKey p && allowMultiple p = true /\
      (1 < length (selectedFileIds p))%nat /\
      ((key p = "ArrowUp" /\ directionOf p firstKey lastKey = down) \/
       (key p = "ArrowDown" /\ directionOf p firstKey lastKey = up)).
Proof.
  intros Hfirst Hlast.
  assert (Hlen : (length (selectedFileIds p) <> 1 -> 1 < length (selectedFileIds p))%nat).
  { pose proof (selected_ends _ _ _ Hfirst Hlast) as (Hz & _).
    apply Nat.eqb_neq in Hz. lia. }
  assert (Hext : forall get (o : Direction) i,
    fileIdSelection_remove i ∈
      (if (length (selectedFileIds p) =? 1)%nat then []
       else if Direction_eqb (directionOf p firstKey lastKey) o
            then [fileIdSelection_remove (unstringifyFileKey lastKey)]
            else [])
      ++ getAndAddFile p get (unstringifyFileKey lastKey) <->
    i = unstringifyFileKey lastKey /\ (1 < length (selectedFileIds p))%nat /\
    directionOf p firstKey lastKey = o).
  { intros get o i. rewrite elem_of_app.
    pose proof (remove_not_in_getAndAddFile p get (unstringifyFileKey lastKey) i) as Hno.
    destruct (Nat.eqb_spec (length (selectedFileIds p)) 1) as [Hone|Hmany].
    - pose proof (not_elem_of_nil (fileIdSelection_remove i)). split; [tauto|lia].
    - destruct (Direction_eqb (directionOf p firstKey lastKey) o) eqn:Hdir.
      + apply Direction_eqb_eq in Hdir. rewrite list_elem_of_singleton. split.
        * intros [[= ->]|Hin]; [auto|tauto].
        * intros (-> & _ & _). now left.
      + pose proof (not_elem_of_nil (fileIdSelection_remove i)).
        split; [tauto|]. intros (_ & _ & Hd).
        apply Direction_eqb_eq in Hd. congruence. }
  destruct (String.eqb_spec (key p) "ArrowUp") as [Hup|Hup];
    [|destruct (String.eqb_spec (key p) "ArrowDown") as [Hdown|Hdown]].
  - destruct (shiftKey p && allowMultiple p) eqn:Hshift.
    + rewrite (extension_up_eq p _ _ Hfirst Hlast Hshift Hup). eexists _, _.
      split; [reflexivity|]. intros i. rewrite Hext, Hup.
      split; [tauto|]. intros (? & _ & ? & [[_ ?]|[[=] _]]). auto.
    + rewrite (reset_up_eq p _ _ Hfirst Hlast Hshift Hup). eexists _, _.
      split; [reflexivity|]. intros i. split; [|intros (_ & [=] & _)].
      intros Hin. now apply remove_not_in_reset in Hin.
  - destruct (shiftKey p && allowMultiple p) eqn:Hshift.
    + rewrite (extension_down_eq p _ _ Hfirst Hlast Hshift Hdown). eexists _, _.
      split; [reflexivity|]. intros i. rewrite Hext, Hdown.
      split; [tauto|]. intros (? & _ & ? & [[[=] _]|[_ ?]]). auto.
    + rewrite (reset_down_eq p _ _ Hfirst Hlast Hshift Hdown). eexists _, _.
      split; [reflexivity|]. intros i. split; [|intros (_ & [=] & _)].
      intros Hin. now apply remove_not_in_reset in Hin.
  - apply String.eqb_neq in Hup, Hdown. enter_handler Hfirst Hlast.
    rewrite Hup, Hdown. eexists _, _. split; [reflexivity|].
    apply String.eqb_neq in Hup, Hdown.
    intros i. split; [intros Hin; now apply not_elem_of_nil in Hin|].
    intros (_ & _ & _ & [[? _]|[? _]]); congruence.
Qed.

(** ** What an extension keeps *)

Lemma kept_by_getAndAddFile (p : MoveSelectionParams)
    (get : list AnyFile -> string -> option AnyFile) (i k : string) (v : View) :
  k ∈ selection v -> k ∈ selection (performAll (getAndAddFile p get i) v).
Proof.
  intros Hk.
  destruct (getAndAddFile_cases p get i) as [[-> _]|(f & _ & _ & ->)]; simpl; auto.
  unfold FileIdSelection_add. apply elem_of_app. now left.
Qed.

(** With the extend modifier held and multiple selection allowed the handler
    never calls [clear], and every selected key other than the key of the
    last-selected identifier is still selected after the call: an extension
    can drop the last-selected identifier only. *)
Theorem extension_keeps_other_keys
    (p : MoveSelectionParams) (v : View) (lastKey : string) :
  shiftKey p = true -> allowMultiple p = true ->
  last (selectedFileIds p) = Some lastKey ->
  exists dir calls,
    maybeMoveSelection p = Returned dir calls /\
    (fileIdSelection_clear ∉ calls) /\
    forall k, k ∈ selection v ->
              k <> stringifyFileKey (unstringifyFileKey lastKey) ->
              k ∈ selection (performAll calls v).
Proof.
  intros Hshift Hallow Hlast.
  destruct (selected_nonempty (selectedFileIds p)) as (fk & lk & Hfirst & Hlast').
  { intros He. rewrite He in Hlast. discriminate. }
  assert (lk = lastKey) as -> by congruence.
  assert (Hext : shiftKey p && allowMultiple p = true) by now rewrite Hshift, Hallow.
  assert (Hcalls : forall get (o : Direction),
    let calls :=
      (if (length (selectedFileIds p) =? 1)%nat then []
       else if Direction_eqb (directionOf p fk lastKey) o
            then [fileIdSelection_remove (unstringifyFileKey lastKey)]
            else [])
      ++ getAndAddFile p get (unstringifyFileKey lastKey) in
    (fileIdSelection_clear ∉ calls) /\
    forall k, k ∈ selection v ->
              k <> stringifyFileKey (unstringifyFileKey lastKey) ->
              k ∈ selection (performAll calls v)).
  { intros get o calls. subst calls. split.
    - rewrite elem_of_app.
      pose proof (clear_not_in_getAndAddFile p get (unstringifyFileKey lastKey)).
      destruct (length (selectedFileIds p) =? 1)%nat;
        [|destruct (Direction_eqb (directionOf p fk lastKey) o)];
        rewrite ?list_elem_of_singleton;
        intros [Hin|Hin]; try tauto; try discriminate;
        now apply not_elem_of_nil in Hin.
    - intros k Hk Hne. rewrite performAll_app. apply kept_by_getAndAddFile.
      destruct (length (selectedFileIds p) =? 1)%nat;
        [|destruct (Direction_eqb (directionOf p fk lastKey) o)]; simpl; auto.
      now apply elem_of_FileIdSelection_remove. }
  destruct (String.eqb_spec (key p) "ArrowUp") as [Hup|Hup];
    [|destruct (String.eqb_spec (key p) "ArrowDown") as [Hdown|Hdown]].
  - rewrite (extension_up_eq p _ _ Hfirst Hlast Hext Hup). eexists _, _.
    split; [reflexivity|]. apply Hcalls.
  - rewrite (extension_down_eq p _ _ Hfirst Hlast Hext Hdown). eexists _, _.
    split; [reflexivity|]. apply Hcalls.
  - apply String.eqb_neq in Hup, Hdown. enter_handler Hfirst Hlast.
    rewrite Hup, Hdown. eexists _, _. split; [reflexivity|].
    split; [apply not_elem_of_nil|auto].
Qed.

(** ** What a call can add *)

Lemma length_FileIdSelection_remove (i : string) (value : list string) :
  (length (FileIdSelection_remove i value) <= length value)%nat.
Proof. apply List.filter_length_le. Qed.

(** Whatever the key and the modifiers, a call makes the selection at most
    one key longer, and every key of the selection after the call was
    selected before or is the key of a file of the list. *)
Theorem only_listed_files_are_selected (p : MoveSelectionParams) (v : View) :
  exists dir calls,
    maybeMoveSelection p = Returned dir calls /\
    (length (selection (performAll calls v)) <= S (length (selection v)))%nat /\
    forall k, k ∈ selection (performAll calls v) ->
              k ∈ selection v \/ exists f, f ∈ files p /\ k = stringifyFileKey (id f).
Proof.
  assert (Hgrow : forall get i w,
    get = getPreviousFile \/ get = getNextFile ->
    (length (selection (performAll (getAndAddFile p get i) w))
       <= S (length (selection w)))%nat /\
    forall k, k ∈ selection (performAll (getAndAddFile p get i) w) ->
              k ∈ selection w \/ exists f, f ∈ files p /\ k = stringifyFileKey (id f)).
  { intros get i w Hget.
    destruct (getAndAddFile_cases p get i) as [[-> _]|(f & Hf & _ & ->)]; simpl.
    - split; [lia|auto].
    - unfold FileIdSelection_add. rewrite length_app. simpl. split; [lia|].
      intros k Hk. apply elem_of_app in Hk as [Hk|Hk]; [now left|right].
      apply list_elem_of_singleton in Hk. exists f.
      split; [now apply (lookup_listed get _ i)|exact Hk]. }
  destruct (selectedFileIds p) as [|k0 sel] eqn:Hsel.
  - rewrite (maybeMoveSelection_empty p Hsel). eexists _, _.
    split; [reflexivity|]. simpl. split; [lia|auto].
  - destruct (selected_nonempty (selectedFileIds p)) as (fk & lk & Hf & Hl);
      [rewrite Hsel; discriminate|].
    destruct (maybeMoveSelection_shape p fk lk Hf Hl) as (dir & calls & Hret & Hshape).
    exists dir, calls. split; [exact Hret|].
    destruct Hshape as [get Hget|get Hget _ _|sibling get i Hget|].
    + now apply Hgrow.
    + change (performAll (fileIdSelection_remove (unstringifyFileKey lk)
                            :: getAndAddFile p get (unstringifyFileKey lk)) v)
        with (performAll (getAndAddFile p get (unstringifyFileKey lk))
                (perform v (fileIdSelection_remove (unstringifyFileKey lk)))).
      destruct (Hgrow get (unstringifyFileKey lk)
                  (perform v (fileIdSelection_remove (unstringifyFileKey lk))) Hget)
        as [Hlen Hmem].
      change (selection (perform v (fileIdSelection_remove (unstringifyFileKey lk))))
        with (FileIdSelection_remove (unstringifyFileKey lk) (selection v))
        in Hlen, Hmem.
      split.
      * pose proof (length_FileIdSelection_remove (unstringifyFileKey lk) (selection v)).
        lia.
      * intros k Hk. destruct (Hmem k Hk) as [Hin|Hnew]; [left|now right].
        now apply elem_of_FileIdSelection_remove in Hin.
    + rewrite performAll_app.
      destruct (getAndClearAndAddFile_cases p get i) as [[_ ->]|(f & Hfile & ->)]; simpl.
      * rewrite selection_focusSibling. split; [lia|auto].
      * split; [lia|]. intros k Hk. apply list_elem_of_singleton in Hk. right.
        exists f. split; [now apply (lookup_listed get _ i)|exact Hk].
    + simpl. split; [lia|auto].
Qed.

(** ** Plain arrows *)

Lemma selection_reset (p : MoveSelectionParams) (sibling : option nat)
    (get : list AnyFile -> string -> option AnyFile) (i : string) (v : View) :
  selection (performAll (focusSibling sibling ++ getAndClearAndAddFile p get i) v) =
    match get (files p) i with
    | Some f => [stringifyFileKey (id f)]
    | None => selection v
    end.
Proof.
  rewrite performAll_app. unfold getAndClearAndAddFile.
  destruct (get (files p) i); [reflexivity|apply selection_focusSibling].
Qed.

(** [ArrowUp] outside an extension (the extend modifier is not held or
    multiple selection is not allowed) on more than one selected identifier:
    the selection becomes the key of the file right before the list position
    of the last-selected identifier; it is unchanged when that identifier is
    at the first position or not in the list. *)
Theorem arrow_up_collapses_selection (p : MoveSelectionParams) (lastKey : string) :
  key p = "ArrowUp" -> shiftKey p && allowMultiple p = false ->
  (1 < length (selectedFileIds p))%nat ->
  last (selectedFileIds p) = Some lastKey ->
  exists dir calls,
    maybeMoveSelection p = Returned dir calls /\
    forall v,
      (unstringifyFileKey lastKey ∉ map id (files p) ->
       selection (performAll calls v) = selection v) /\
      forall i, position (files p) (unstringifyFileKey lastKey) i ->
        (forall j f, i = S j -> files p !! j = Some f ->
                     selection (performAll calls v) = [stringifyFileKey (id f)]) /\
        (i = 0%nat -> selection (performAll calls v) = selection v).
Proof.
  intros Hkey Hext Hmany Hlast.
  destruct (selected_nonempty (selectedFileIds p)) as (fk & lk & Hfirst & Hlast').
  { intros He. rewrite He in Hmany. simpl in Hmany. lia. }
  assert (lk = lastKey) as -> by congruence.
  rewrite (reset_up_eq p _ _ Hfirst Hlast Hext Hkey).
  apply Nat.ltb_lt in Hmany. rewrite Hmany.
  eexists _, _. split; [reflexivity|]. intros v. rewrite selection_reset. split.
  - intros Hstale. now rewrite (getPreviousFile_stale _ _ Hstale).
  - intros i Hpos. rewrite (getPreviousFile_position _ _ i Hpos). split.
    + intros j f -> Hf. now rewrite Hf.
    + now intros ->.
Qed.

(** An arrow key outside an extension on exactly one selected identifier:
    the lookup is made for the focused file, whatever is selected.  The
    selection becomes the key of the file after (for [ArrowDown]) or before
    (for [ArrowUp]) the list position of the focused file, and is unchanged
    when the focused file is at that end of the list or not in the list. *)
Theorem plain_arrow_on_single_follows_focused_file
    (p : MoveSelectionParams) (k : string) :
  selectedFileIds p = [k] -> shiftKey p && allowMultiple p = false ->
  exists dir calls,
    maybeMoveSelection p = Returned dir calls /\
    forall v,
      (id (file p) ∉ map id (files p) ->
       selection (performAll calls v) = selection v) /\
      forall i, position (files p) (id (file p)) i ->
        (key p = "ArrowDown" ->
         (forall f, files p !! S i = Some f ->
                    selection (performAll calls v) = [stringifyFileKey (id f)]) /\
         (length (files p) = S i -> selection (performAll calls v) = selection v)) /\
        (key p = "ArrowUp" ->
         (forall j f, i = S j -> files p !! j = Some f ->
                      selection (performAll calls v) = [stringifyFileKey (id f)]) /\
         (i = 0%nat -> selection (performAll calls v) = selection v)).
Proof.
  intros Hsel Hext.
  assert (Hfirst : head (selectedFileIds p) = Some k) by now rewrite Hsel.
  assert (Hlast : last (selectedFileIds p) = Some k) by now rewrite Hsel.
  assert (Hone : (1 <? length (selectedFileIds p))%nat = false) by now rewrite Hsel.
  destruct (String.eqb_spec (key p) "ArrowUp") as [Hup|Hup];
    [|destruct (String.eqb_spec (key p) "ArrowDown") as [Hdown|Hdown]].
  - rewrite (reset_up_eq p _ _ Hfirst Hlast Hext Hup), Hone.
    eexists _, _. split; [reflexivity|]. intros v. rewrite selection_reset. split.
    + intros Hstale. now rewrite (getPreviousFile_stale _ _ Hstale).
    + intros i Hpos. rewrite (getPreviousFile_position _ _ i Hpos).
      split; [rewrite Hup; discriminate|]. intros _. split.
      * intros j f -> Hf. now rewrite Hf.
      * now intros ->.
  - rewrite (reset_down_eq p _ _ Hfirst Hlast Hext Hdown), Hone.
    eexists _, _. split; [reflexivity|]. intros v. rewrite selection_reset. split.
    + intros Hstale. now rewrite (getNextFile_stale _ _ Hstale).
    + intros i Hpos. rewrite (getNextFile_position _ _ i Hpos).
      split; [|rewrite Hdown; discriminate]. intros _. split.
      * intros f Hf. now rewrite Hf.
      * intros Hend. now rewrite (lookup_ge_None_2 (files p) (S i)) by lia.
  - pose proof Hup as Hup'. pose proof Hdown as Hdown'.
    apply String.eqb_neq in Hup', Hdown'. enter_handler Hfirst Hlast.
    rewrite Hup', Hdown'. eexists _, _. split; [reflexivity|].
    intros v. split; [reflexivity|]. intros i _. split; intros; congruence.
Qed.

(** With multiple selection not allowed the shift key changes nothing: the
    handler returns the same direction and the same calls whether it is held
    or not. *)
Theorem shift_is_ignored_without_multiple (p : MoveSelectionParams) :
  allowMultiple p = false ->
  maybeMoveSelection (withShiftKey true p) = maybeMoveSelection (withShiftKey false p).
Proof.
  intros Hallow.
  unfold maybeMoveSelection, getAndAddFile, getAndClearAndAddFile. simpl.
  now rewrite Hallow.
Qed.

(** ** Growing and shrinking a range *)

Lemma getAndAddFile_new (p : MoveSelectionParams)
    (get : list AnyFile -> string -> option AnyFile) (i : string) (f : AnyFile) :
  get (files p) i = Some f ->
  stringifyFileKey (id f) ∉ selectedFileIds p ->
  getAndAddFile p get i = [fileIdSelection_add (id f)].
Proof.
  intros Hf Hnew. unfold getAndAddFile. rewrite Hf.
  apply includes_false in Hnew. now rewrite Hnew.
Qed.

Lemma getAndAddFile_selected (p : MoveSelectionParams)
    (get : list AnyFile -> string -> option AnyFile) (i : string) (f : AnyFile) :
  get (files p) i = Some f ->
  stringifyFileKey (id f) ∈ selectedFileIds p ->
  getAndAddFile p get i = [].
Proof.
  intros Hf Hold. unfold getAndAddFile. rewrite Hf.
  apply includes_true in Hold. now rewrite Hold.
Qed.

Lemma Direction_eqb_neq (a b : Direction) : Direction_eqb a b = false <-> a <> b.
Proof. destruct a, b; simpl; split; congruence. Qed.

(** An extension that does not reverse (one identifier is selected, or the
    selection direction does not oppose the key) issues exactly one call when
    the adjacent file of the last-selected identifier exists and its key is
    not selected: the [add] of that file, whose key is appended at the end of
    the selection. *)
Theorem extension_appends_adjacent_file
    (p : MoveSelectionParams) (v : View) (firstKey lastKey : string) (f : AnyFile) :
  shiftKey p = true -> allowMultiple p = true ->
  head (selectedFileIds p) = Some firstKey ->
  last (selectedFileIds p) = Some lastKey ->
  (key p = "ArrowDown" /\
   getNextFile (files p) (unstringifyFileKey lastKey) = Some f /\
   (length (selectedFileIds p) = 1%nat \/ directionOf p firstKey lastKey <> up)) \/
  (key p = "ArrowUp" /\
   getPreviousFile (files p) (unstringifyFileKey lastKey) = Some f /\
   (length (selectedFileIds p) = 1%nat \/ directionOf p firstKey lastKey <> down)) ->
  stringifyFileKey (id f) ∉ selectedFileIds p ->
  exists dir,
    maybeMoveSelection p = Returned (Some dir) [fileIdSelection_add (id f)] /\
    selection (performAll [fileIdSelection_add (id f)] v) =
      selection v ++ [stringifyFileKey (id f)].
Proof.
  intros Hshift Hallow Hfirst Hlast Hside Hnew.
  assert (Hext : shiftKey p && allowMultiple p = true) by now rewrite Hshift, Hallow.
  destruct Hside as [(Hkey & Hf & Hdir)|(Hkey & Hf & Hdir)].
  - rewrite (extension_down_eq p _ _ Hfirst Hlast Hext Hkey).
    rewrite (getAndAddFile_new p _ _ f Hf Hnew).
    destruct (Nat.eqb_spec (length (selectedFileIds p)) 1) as [Hone|Hmany].
    + eexists. split; reflexivity.
    + destruct Hdir as [Hone|Hdir]; [contradiction|].
      apply Direction_eqb_neq in Hdir. rewrite Hdir. eexists. split; reflexivity.
  - rewrite (extension_up_eq p _ _ Hfirst Hlast Hext Hkey).
    rewrite (getAndAddFile_new p _ _ f Hf Hnew).
    destruct (Nat.eqb_spec (length (selectedFileIds p)) 1) as [Hone|Hmany].
    + eexists. split; reflexivity.
    + destruct Hdir as [Hone|Hdir]; [contradiction|].
      apply Direction_eqb_neq in Hdir. rewrite Hdir. eexists. split; reflexivity.
Qed.

Lemma filter_out_last (q : string -> bool) (l : list string) (k : string) :
  q k = false -> (forall x, x ∈ l -> q x = true) ->
  List.filter q (l ++ [k]) = l.
Proof.
  intros Hk Hl. rewrite List.filter_app. simpl. rewrite Hk, app_nil_r.
  induction l as [|a l IH]; simpl; [reflexivity|].
  rewrite (Hl a) by (left). f_equal. apply IH. intros x Hx. apply Hl. now right.
Qed.

Lemma remove_after_add (i : string) (value : list string) :
  stringifyFileKey i ∉ value ->
  FileIdSelection_remove i (FileIdSelection_add i value) = value.
Proof.
  intros Hnew. unfold FileIdSelection_remove, FileIdSelection_add.
  apply filter_out_last.
  - now rewrite String.eqb_refl.
  - intros x Hx. apply negb_true_iff, String.eqb_neq. intros ->. contradiction.
Qed.

Lemma remove_last_key (i : string) (value : list string) :
  NoDup value -> last value = Some (stringifyFileKey i) ->
  FileIdSelection_remove i value = removelast value.
Proof.
  intros Hnd Hlast.
  destruct (last_Some value (stringifyFileKey i)) as [[front ->] _]; [exact Hlast|].
  rewrite removelast_last.
  apply NoDup_app in Hnd as (_ & Hfresh & _).
  apply (remove_after_add i front). intros Hin.
  apply (Hfresh _ Hin). now apply list_elem_of_singleton.
Qed.

(** Reversing an extension when the file on the side of the key is already
    selected, as it is in a range that was built by extending: the handler
    issues the [remove] of the last-selected identifier and nothing else.  On
    a duplicate-free selection whose last key is the key of its identifier,
    the selection after the call is the selection without its last key. *)
Theorem reversal_drops_last_key
    (p : MoveSelectionParams) (v : View) (firstKey lastKey : string) (f : AnyFile) :
  shiftKey p = true -> allowMultiple p = true ->
  (1 < length (selectedFileIds p))%nat ->
  head (selectedFileIds p) = Some firstKey ->
  last (selectedFileIds p) = Some lastKey ->
  (key p = "ArrowUp" /\ directionOf p firstKey lastKey = down /\
   getPreviousFile (files p) (unstringifyFileKey lastKey) = Some f) \/
  (key p = "ArrowDown" /\ directionOf p firstKey lastKey = up /\
   getNextFile (files p) (unstringifyFileKey lastKey) = Some f) ->
  stringifyFileKey (id f) ∈ selectedFileIds p ->
  maybeMoveSelection p =
    Returned (Some (directionOf p firstKey lastKey))
      [fileIdSelection_remove (unstringifyFileKey lastKey)] /\
  (selection v = selectedFileIds p -> NoDup (selection v) ->
   stringifyFileKey (unstringifyFileKey lastKey) = lastKey ->
   selection (performAll [fileIdSelection_remove (unstringifyFileKey lastKey)] v) =
     removelast (selection v)).
Proof.
  intros Hshift Hallow Hmany Hfirst Hlast Hside Hold.
  assert (Hext : shiftKey p && allowMultiple p = true) by now rewrite Hshift, Hallow.
  assert (Hlen : (length (selectedFileIds p) =? 1)%nat = false)
    by (apply Nat.eqb_neq; lia).
  split.
  - destruct Hside as [(Hkey & Hdir & Hf)|(Hkey & Hdir & Hf)].
    + rewrite (extension_up_eq p _ _ Hfirst Hlast Hext Hkey), Hlen.
      rewrite (getAndAddFile_selected p _ _ f Hf Hold).
      apply Direction_eqb_eq in Hdir. now rewrite Hdir.
    + rewrite (extension_down_eq p _ _ Hfirst Hlast Hext Hkey), Hlen.
      rewrite (getAndAddFile_selected p _ _ f Hf Hold).
      apply Direction_eqb_eq in Hdir. now rewrite Hdir.
  - intros Hsync Hnd Hcanon. simpl. apply remove_last_key; [exact Hnd|].
    now rewrite Hsync, Hcanon.
Qed.

(** ** Extending and taking the extension back *)






End Navigator.

(** * The token effect *)

Lemma searchParams_has_delete (name : string) (params : list (string * string)) :
  searchParams_has name (searchParams_delete name params) = false.
Proof.
  unfold searchParams_has, searchParams_delete.
  induction params as [|[k x] params IH]; simpl; [reflexivity|].
  destruct (String.eqb k name) eqn:Hk; simpl; [exact IH|]. now rewrite Hk.
Qed.

Lemma searchParams_delete_absent (name : string) (params : list (string * string)) :
  searchParams_has name params = false -> searchParams_delete name params = params.
Proof.
  unfold searchParams_has, searchParams_delete.
  induction params as [|[k x] params IH]; simpl; [reflexivity|].
  destruct (String.eqb k name); simpl; [discriminate|]. intros H. now rewrite IH.
Qed.

Lemma searchParams_get_delete (name other : string) (params : list (string * string)) :
  other <> name ->
  searchParams_get other (searchParams_delete name params) = searchParams_get other params.
Proof.
  intros Hne. unfold searchParams_get, searchParams_delete.
  induction params as [|[k x] params IH]; simpl; [reflexivity|].
  destruct (String.eqb_spec k name) as [->|Hk]; simpl.
  - apply String.eqb_neq in Hne. rewrite String.eqb_sym in Hne. now rewrite Hne.
  - destruct (String.eqb k other); [reflexivity|exact IH].
Qed.

Lemma searchParams_get_has (name : string) (params : list (string * string)) (value : string) :
  searchParams_get name params = Some value -> searchParams_has name params = true.
Proof.
  unfold searchParams_get, searchParams_has.
  induction params as [|[k x] params IH]; simpl; [discriminate|].
  destruct (String.eqb k name); simpl; auto.
Qed.

Lemma truthy_Some (value : option string) :
  truthy value = true <-> exists t, value = Some t /\ t <> "".
Proof.
  destruct value as [t|]; simpl.
  - rewrite negb_true_iff, String.eqb_neq. split; [eauto|].
    now intros (t' & [= <-] & Hne).
  - split; [discriminate|]. now intros (t & [=] & _).
Qed.

(** The runs of the effect, by the token it finds. *)
Lemma tokenEffect_cases (toString : list (string * string) -> string)
    (storedToken : option string) (searchParams : list (string * string)) :
  let fromUrl := searchParams_get "gb_access_token" searchParams in
  let stripped := searchParams_delete "gb_access_token" searchParams in
  (truthy storedToken = false /\ truthy fromUrl = false /\
   tokenEffect toString storedToken searchParams = ([], searchParams)) \/
  (exists t, t <> "" /\
     (storedToken = Some t \/ (truthy storedToken = false /\ fromUrl = Some t)) /\
     ((searchParams_has "gb_access_token" searchParams = true /\
       tokenEffect toString storedToken searchParams =
         ([authService_setToken t; goto ("?" +:+ toString stripped)], stripped)) \/
      (searchParams_has "gb_access_token" searchParams = false /\
       tokenEffect toString storedToken searchParams =
         ([authService_setToken t], searchParams)))).
Proof.
  intros fromUrl stripped. unfold tokenEffect. fold fromUrl. fold stripped.
  destruct (truthy storedToken) eqn:Hstored.
  - right. apply truthy_Some in Hstored as (t & -> & Hne). exists t.
    split; [exact Hne|]. split; [now left|].
    assert (Ht : truthy (Some t) = true) by (apply truthy_Some; eauto).
    cbv beta iota zeta. rewrite Ht.
    destruct (searchParams_has "gb_access_token" searchParams); [left|right]; auto.
  - destruct (truthy fromUrl) eqn:Hurl.
    + right. apply truthy_Some in Hurl as (t & Hfrom & Hne). exists t.
      split; [exact Hne|]. split; [right; auto|].
      assert (Ht : truthy (Some t) = true) by (apply truthy_Some; eauto).
      cbv beta iota zeta. rewrite Hfrom. cbv beta iota zeta. rewrite ?Ht.
      destruct (searchParams_has "gb_access_token" searchParams); [left|right]; auto.
    + left. repeat split. cbv beta iota zeta.
      now destruct fromUrl.
Qed.

(** The token the effect hands to the authentication service: the stored
    token when there is one that is not empty, else the first value of the
    [gb_access_token] parameter when it is not empty, and no token otherwise;
    a parameter in the URL never overrides a stored token.  A call to
    [setToken] is the first call of the run, and without one the run issues
    no call at all. *)
Theorem token_handed_to_auth_service (toString : list (string * string) -> string)
    (storedToken : option string) (searchParams : list (string * string))
    (calls : list LayoutCall) (left : list (string * string)) :
  tokenEffect toString storedToken searchParams = (calls, left) ->
  (forall t, authService_setToken t ∈ calls <->
     t <> "" /\
     (storedToken = Some t \/
      (truthy storedToken = false /\
       searchParams_get "gb_access_token" searchParams = Some t))) /\
  (calls = [] \/ exists t rest, calls = authService_setToken t :: rest).
Proof.
  intros Hrun.
  destruct (tokenEffect_cases toString storedToken searchParams)
    as [(Hstored & Hurl & He)|(t & Hne & Hsource & He)].
  - rewrite He in Hrun. injection Hrun as <- <-. split; [|now left].
    intros t. split; [intros Hin; now apply not_elem_of_nil in Hin|].
    intros (Hne & [->|[_ Hfrom]]).
    + simpl in Hstored. apply negb_false_iff, String.eqb_eq in Hstored. contradiction.
    + rewrite Hfrom in Hurl. simpl in Hurl.
      apply negb_false_iff, String.eqb_eq in Hurl. contradiction.
  - assert (Hcalls : calls = [authService_setToken t] \/
                     exists url, calls = [authService_setToken t; goto url]).
    { destruct He as [[_ He]|[_ He]]; rewrite He in Hrun; injection Hrun as <- <-; eauto. }
    split; [|right; destruct Hcalls as [->|[url ->]]; eauto].
    intros t'. split.
    + intros Hin.
      assert (t' = t) as ->.
      { destruct Hcalls as [->|[url ->]]; apply list_elem_of_In in Hin; simpl in Hin;
          intuition congruence. }
      auto.
    + intros (Hne' & Hsource').
      assert (t' = t) as ->.
      { destruct Hsource as [Hs|[Hs Hfrom]], Hsource' as [Hs'|[Hs' Hfrom']].
        - congruence.
        - rewrite Hs in Hs'. simpl in Hs'.
          apply negb_false_iff, String.eqb_eq in Hs'. contradiction.
        - rewrite Hs' in Hs. simpl in Hs.
          apply negb_false_iff, String.eqb_eq in Hs. contradiction.
        - congruence. }
      destruct Hcalls as [->|[url ->]]; apply list_elem_of_In; simpl; auto.
Qed.

(** A run that issues a call leaves the URL without a [gb_access_token]
    parameter: every pair of that name is dropped, the other parameters keep
    their values and their order.  The run navigates exactly when the
    parameter was in the URL, and then to the serialisation of the
    parameters it left. *)
Theorem token_parameter_is_stripped (toString : list (string * string) -> string)
    (storedToken : option string) (searchParams : list (string * string))
    (calls : list LayoutCall) (left : list (string * string)) :
  tokenEffect toString storedToken searchParams = (calls, left) ->
  calls <> [] ->
  left = searchParams_delete "gb_access_token" searchParams /\
  searchParams_has "gb_access_token" left = false /\
  (forall name, name <> "gb_access_token" ->
                searchParams_get name left = searchParams_get name searchParams) /\
  ((exists url, goto url ∈ calls) <->
   searchParams_has "gb_access_token" searchParams = true) /\
  (forall url, goto url ∈ calls -> url = "?" +:+ toString left).
Proof.
  intros Hrun Hcalls.
  destruct (tokenEffect_cases toString storedToken searchParams)
    as [(_ & _ & He)|(t & _ & _ & [[Hhas He]|[Hhas He]])];
    rewrite He in Hrun; injection Hrun as <- <-; [contradiction| |].
  - split; [reflexivity|]. split; [apply searchParams_has_delete|].
    split; [intros name Hne; now apply searchParams_get_delete|]. split.
    + split; [auto|]. intros _. eexists. apply list_elem_of_In. simpl. eauto.
    + intros url Hin. apply list_elem_of_In in Hin. simpl in Hin.
      intuition congruence.
  - split; [symmetry; now apply searchParams_delete_absent|].
    split; [exact Hhas|]. split; [reflexivity|]. split.
    + split; [|congruence]. intros (url & Hin).
      apply list_elem_of_In in Hin. simpl in Hin. intuition discriminate.
    + intros url Hin. apply list_elem_of_In in Hin. simpl in Hin.
      intuition discriminate.
Qed.

(** After a run that issued a call, a further run on the parameters it left
    never navigates and leaves the parameters as they are, whatever token is
    stored by then: the effect cannot redirect twice in a row. *)
Theorem second_run_never_navigates (toString : list (string * string) -> string)
    (storedToken laterToken : option string) (searchParams : list (string * string))
    (calls : list LayoutCall) (left : list (string * string)) :
  tokenEffect toString storedToken searchParams = (calls, left) ->
  calls <> [] ->
  snd (tokenEffect toString laterToken left) = left /\
  (forall url, goto url ∉ fst (tokenEffect toString laterToken left)) /\
  (forall t, laterToken = Some t -> t <> "" ->
             fst (tokenEffect toString laterToken left) = [authService_setToken t]).
Proof.
  intros Hrun Hcalls.
  assert (Hgone : searchParams_has "gb_access_token" left = false).
  { destruct (tokenEffect_cases toString storedToken searchParams)
      as [(_ & _ & He)|(t & _ & _ & [[Hhas He]|[Hhas He]])];
      rewrite He in Hrun; injection Hrun as <- <-;
      [contradiction|apply searchParams_has_delete|exact Hhas]. }
  destruct (tokenEffect_cases toString laterToken left)
    as [(Hs & _ & He)|(t & Hne & Hsource & [[Hhas He]|[_ He]])];
    [|congruence|]; rewrite He; simpl.
  - split; [reflexivity|]. split; [intros url; apply not_elem_of_nil|].
    intros t Hlater Hne. rewrite Hlater in Hs. simpl in Hs.
    apply negb_false_iff, String.eqb_eq in Hs. contradiction.
  - split; [reflexivity|]. split.
    + intros url Hin. apply list_elem_of_In in Hin. simpl in Hin.
      intuition discriminate.
    + intros t' Hlater Hne'. destruct Hsource as [Hs|[Hs _]]; [congruence|].
      rewrite Hlater in Hs. simpl in Hs.
      apply negb_false_iff, String.eqb_eq in Hs. contradiction.
Qed.

(** * The theorems on the files A, B, C, D *)

Lemma plainKey_round_trip (i : string) : plainKey (plainKey i) = i.
Proof. reflexivity. Qed.

(** The reversal of C1 as the spec has it ends on B, A; the handler ends on
    B alone. *)
Lemma reversal_example_ends_on_B :
  exists d1 c1 d2 c2,
    maybeMoveSelection plainKey plainKey
      (press "ArrowDown" true (namedFile "B") exampleFiles ["B"]) = Returned d1 c1 /\
    selection (performAll plainKey c1 {| selection := ["B"]; focused := Some 1%nat |})
      = ["B"; "C"] /\
    maybeMoveSelection plainKey plainKey
      (press "ArrowUp" true (namedFile "B") exampleFiles ["B"; "C"]) = Returned d2 c2 /\
    selection
      (performAll plainKey c2
         (performAll plainKey c1 {| selection := ["B"]; focused := Some 1%nat |}))
      <> ["B"; "A"].
Proof.
  exists (Some down), [fileIdSelection_add "C"], (Some down), [fileIdSelection_remove "C"].
  repeat split; try reflexivity. vm_compute. discriminate.
Qed.

Lemma reversal_example_witness :
  maybeMoveSelection plainKey plainKey
    (press "ArrowUp" true (namedFile "B") exampleFiles ["B"; "C"]) =
    Returned (Some down) [fileIdSelection_remove "C"] /\
  selection
    (performAll plainKey [fileIdSelection_remove "C"]
       (performAll plainKey [fileIdSelection_add "C"]
          {| selection := ["B"]; focused := Some 1%nat |})) = ["B"].
Proof.
  pose proof (reversal_example plainKey plainKey plainKey_round_trip (namedFile "B")
                {| selection := ["B"]; focused := Some 1%nat |} eq_refl)
    as (_ & _ & Hup & Hsel).
  split; [exact Hup|exact Hsel].
Defined.

Lemma reversal_removes_last_first_witness :
  exists attempt,
    maybeMoveSelection plainKey plainKey
      (press "ArrowUp" true (namedFile "B") exampleFiles ["B"; "C"]) =
      Returned (Some down) (fileIdSelection_remove "C" :: attempt).
Proof.
  destruct (reversal_removes_last_first plainKey plainKey
              (press "ArrowUp" true (namedFile "B") exampleFiles ["B"; "C"]) "B" "C")
    as (attempt & Hret & _).
  - reflexivity.
  - reflexivity.
  - simpl. lia.
  - reflexivity.
  - reflexivity.
  - left. split; reflexivity.
  - exists attempt. exact Hret.
Defined.

Lemma arrow_down_collapses_selection_witness :
  exists dir calls,
    maybeMoveSelection plainKey plainKey
      (press "ArrowDown" false (namedFile "C") exampleFiles ["A"; "B"; "C"]) =
      Returned dir calls /\
    selection (performAll plainKey calls
                 {| selection := ["A"; "B"; "C"]; focused := Some 1%nat |}) = ["D"].
Proof.
  destruct (arrow_down_collapses_selection plainKey plainKey
              (press "ArrowDown" false (namedFile "C") exampleFiles ["A"; "B"; "C"]) "C")
    as (dir & calls & Hret & Hsel).
  - reflexivity.
  - reflexivity.
  - simpl. lia.
  - reflexivity.
  - exists dir, calls. split; [exact Hret|].
    destruct (Hsel {| selection := ["A"; "B"; "C"]; focused := Some 1%nat |} 2%nat)
      as [Hnext _].
    + split.
      * exists (namedFile "C"). split; reflexivity.
      * intros [|[|j]] g Hj Hg; try lia; injection Hg as <-; discriminate.
    + apply (Hnext (namedFile "D")). reflexivity.
Defined.

Lemma adjacent_files_by_position_witness :
  exists i, position exampleFiles "B" i /\
            getNextFile exampleFiles "B" = exampleFiles !! (i + 1)%nat.
Proof.
  destruct (adjacent_files_by_position exampleFiles "B") as (i & Hpos & Huniq & _).
  - apply list_elem_of_In. simpl. tauto.
  - exists i. split; [exact Hpos|].
    rewrite (getNextFile_position exampleFiles "B" i Hpos).
    now replace (i + 1)%nat with (S i) by lia.
Defined.

(** C5 as the spec has it fails on the first file of the list: nothing
    stands before A, nothing is added and the selection keeps size 1. *)
Lemma extend_up_at_first_file :
  maybeMoveSelection plainKey plainKey
    (press "ArrowUp" true (namedFile "A") exampleFiles ["A"]) = Returned (Some up) [] /\
  length (selection (performAll plainKey [] {| selection := ["A"]; focused := Some 0%nat |}))
    <> 2%nat.
Proof. split; [reflexivity|]. simpl. lia. Qed.

Lemma extend_up_from_single_witness :
  exists calls,
    maybeMoveSelection plainKey plainKey
      (press "ArrowUp" true (namedFile "B") exampleFiles ["B"]) = Returned (Some up) calls /\
    calls = [fileIdSelection_add "A"].
Proof.
  destruct (extend_up_from_single plainKey plainKey plainKey_round_trip
              (press "ArrowUp" true (namedFile "B") exampleFiles ["B"]) "B")
    as (calls & Hret & Hcalls).
  - reflexivity.
  - reflexivity.
  - reflexivity.
  - reflexivity.
  - exists calls. split; [exact Hret|]. exact (proj1 Hcalls).
Defined.

Lemma extension_never_duplicates_witness :
  exists dir calls,
    maybeMoveSelection plainKey plainKey
      (press "ArrowDown" true (namedFile "C") exampleFiles ["B"; "C"]) =
      Returned dir calls /\
    NoDup (selection (performAll plainKey calls
                        {| selection := ["B"; "C"]; focused := Some 1%nat |})).
Proof.
  destruct (extension_never_duplicates plainKey plainKey
              (press "ArrowDown" true (namedFile "C") exampleFiles ["B"; "C"]))
    as (dir & calls & Hret & _ & Hnd).
  - reflexivity.
  - exists dir, calls. split; [exact Hret|]. apply Hnd; [reflexivity|].
    simpl. apply NoDup_cons. split.
    + rewrite list_elem_of_singleton. discriminate.
    + apply NoDup_singleton.
Defined.

Lemma empty_selection_is_noop_witness :
  maybeMoveSelection plainKey plainKey
    (press "ArrowDown" true (namedFile "B") exampleFiles []) = Returned None [].
Proof.
  apply (empty_selection_is_noop plainKey plainKey
           (press "ArrowDown" true (namedFile "B") exampleFiles [])).
  reflexivity.
Defined.

Lemma other_keys_are_ignored_witness :
  exists dir,
    maybeMoveSelection plainKey plainKey
      (press "Enter" true (namedFile "B") exampleFiles ["B"]) = Returned dir [].
Proof.
  destruct (other_keys_are_ignored plainKey plainKey
              (press "Enter" true (namedFile "B") exampleFiles ["B"]))
    as (dir & Hret & _).
  - discriminate.
  - discriminate.
  - exists dir. exact Hret.
Defined.

Lemma selection_never_emptied_witness :
  exists dir calls,
    maybeMoveSelection plainKey plainKey
      (press "ArrowUp" true (namedFile "C") exampleFiles ["B"; "C"]) =
      Returned dir calls /\
    selection (performAll plainKey calls
                 {| selection := ["B"; "C"]; focused := Some 1%nat |}) <> [].
Proof.
  destruct (selection_never_emptied plainKey plainKey plainKey_round_trip
              (press "ArrowUp" true (namedFile "C") exampleFiles ["B"; "C"])
              {| selection := ["B"; "C"]; focused := Some 1%nat |})
    as (dir & calls & Hret & Hne & _).
  - reflexivity.
  - discriminate.
  - exists dir, calls. split; [exact Hret|exact Hne].
Defined.

(** C10 as the spec has it fails where the lookup is made for the focused
    file: Z is selected and not in the list, A has the focus, and [ArrowDown]
    without the extend modifier adds B. *)
Lemma stale_single_selection_adds_focused_neighbour :
  ("Z" ∉ map id exampleFiles) /\
  last ["Z"] = Some "Z" /\
  maybeMoveSelection plainKey plainKey
    (press "ArrowDown" false (namedFile "A") exampleFiles ["Z"]) =
    Returned (Some none)
      [element_focus 2; fileIdSelection_clear; fileIdSelection_add "B"] /\
  fileIdSelection_add "B" ∈
    [element_focus 2; fileIdSelection_clear; fileIdSelection_add "B"].
Proof.
  split; [|split; [reflexivity|split; [reflexivity|]]].
  - rewrite list_elem_of_In. simpl. intuition discriminate.
  - apply list_elem_of_In. simpl. tauto.
Qed.

Lemma stale_identifier_adds_nothing_witness :
  getNextFile exampleFiles "Z" = None /\
  getPreviousFile exampleFiles "Z" = None /\
  exists dir calls,
    maybeMoveSelection plainKey plainKey
      (press "ArrowDown" true (namedFile "A") exampleFiles ["Z"]) = Returned dir calls /\
    forall i, fileIdSelection_add i ∉ calls.
Proof.
  destruct (stale_identifier_adds_nothing plainKey plainKey exampleFiles "Z")
    as (Hnext & Hprev & Hcall).
  - rewrite list_elem_of_In. simpl. intuition discriminate.
  - split; [exact Hnext|]. split; [exact Hprev|].
    apply (Hcall (press "ArrowDown" true (namedFile "A") exampleFiles ["Z"]) "Z").
    + reflexivity.
    + reflexivity.
    + reflexivity.
    + left. reflexivity.
Defined.

(** * The remaining example of the spec *)

(** A, B, C selected, [ArrowUp] without the extend modifier: the focus moves
    to the previous sibling and the selection is reset to the file before C. *)
Example reset_example :
  maybeMoveSelection plainKey plainKey
    (press "ArrowUp" false (namedFile "C") exampleFiles ["A"; "B"; "C"]) =
    Returned (Some down)
      [element_focus 0; fileIdSelection_clear; fileIdSelection_add "B"] /\
  performAll plainKey
    [element_focus 0; fileIdSelection_clear; fileIdSelection_add "B"]
    {| selection := ["A"; "B"; "C"]; focused := Some 1%nat |} =
    {| selection := ["B"]; focused := Some 0%nat |}.
Proof. split; reflexivity. Qed.

(** * The further properties on the files A, B, C, D *)

Lemma exampleFiles_distinct : NoDup (map id exampleFiles).
Proof.
  apply NoDup_ListNoDup. simpl.
  repeat constructor; simpl; intuition discriminate.
Qed.

Lemma lookups_return_other_listed_files_witness :
  namedFile "C" ∈ exampleFiles /\ id (namedFile "C") <> "B".
Proof.
  destruct (lookups_return_other_listed_files exampleFiles "B" (namedFile "C"))
    as (Hin & _ & _ & Hother).
  - left. reflexivity.
  - split; [exact Hin|]. apply Hother, exampleFiles_distinct.
Defined.

Lemma next_and_previous_are_inverse_witness :
  exists g, getPreviousFile exampleFiles (id (namedFile "C")) = Some g /\ id g = "B".
Proof.
  destruct (next_and_previous_are_inverse exampleFiles "B" (namedFile "C")
              exampleFiles_distinct) as [Hnext _].
  destruct Hnext as (g & Hg & Hid & _); [reflexivity|].
  exists g. split; [exact Hg|exact Hid].
Defined.


Lemma removal_exactly_on_reversal_witness :
  exists dir calls,
    maybeMoveSelection plainKey plainKey
      (press "ArrowUp" true (namedFile "B") exampleFiles ["B"; "C"]) = Returned dir calls /\
    fileIdSelection_remove "C" ∈ calls.
Proof.
  destruct (removal_exactly_on_reversal plainKey plainKey
              (press "ArrowUp" true (namedFile "B") exampleFiles ["B"; "C"]) "B" "C")
    as (dir & calls & Hret & Hiff).
  - reflexivity.
  - reflexivity.
  - exists dir, calls. split; [exact Hret|]. apply Hiff.
    split; [reflexivity|]. split; [reflexivity|]. split; [simpl; lia|].
    left. split; reflexivity.
Defined.

Lemma extension_keeps_other_keys_witness :
  exists dir calls,
    maybeMoveSelection plainKey plainKey
      (press "ArrowUp" true (namedFile "B") exampleFiles ["B"; "C"]) = Returned dir calls /\
    "B" ∈ selection (performAll plainKey calls
                       {| selection := ["B"; "C"]; focused := Some 1%nat |}).
Proof.
  destruct (extension_keeps_other_keys plainKey plainKey
              (press "ArrowUp" true (namedFile "B") exampleFiles ["B"; "C"])
              {| selection := ["B"; "C"]; focused := Some 1%nat |} "C")
    as (dir & calls & Hret & _ & Hkeep).
  - reflexivity.
  - reflexivity.
  - reflexivity.
  - exists dir, calls. split; [exact Hret|]. apply Hkeep.
    + apply list_elem_of_In. simpl. tauto.
    + discriminate.
Defined.

Lemma only_listed_files_are_selected_witness :
  exists dir calls,
    maybeMoveSelection plainKey plainKey
      (press "ArrowDown" true (namedFile "B") exampleFiles ["B"]) = Returned dir calls /\
    (length (selection (performAll plainKey calls
                          {| selection := ["B"]; focused := Some 1%nat |})) <= 2)%nat.
Proof.
  destruct (only_listed_files_are_selected plainKey plainKey
              (press "ArrowDown" true (namedFile "B") exampleFiles ["B"])
              {| selection := ["B"]; focused := Some 1%nat |})
    as (dir & calls & Hret & Hlen & _).
  exists dir, calls. split; [exact Hret|exact Hlen].
Defined.

Lemma arrow_up_collapses_selection_witness :
  exists dir calls,
    maybeMoveSelection plainKey plainKey
      (press "ArrowUp" false (namedFile "C") exampleFiles ["A"; "B"; "C"]) =
      Returned dir calls /\
    selection (performAll plainKey calls
                 {| selection := ["A"; "B"; "C"]; focused := Some 1%nat |}) = ["B"].
Proof.
  destruct (arrow_up_collapses_selection plainKey plainKey
              (press "ArrowUp" false (namedFile "C") exampleFiles ["A"; "B"; "C"]) "C")
    as (dir & calls & Hret & Hsel).
  - reflexivity.
  - reflexivity.
  - simpl. lia.
  - reflexivity.
  - exists dir, calls. split; [exact Hret|].
    destruct (Hsel {| selection := ["A"; "B"; "C"]; focused := Some 1%nat |})
      as [_ Hpos].
    destruct (Hpos 2%nat) as [Hbefore _].
    + apply (position_of_lookup exampleFiles 2 (namedFile "C") exampleFiles_distinct).
      reflexivity.
    + apply (Hbefore 1%nat (namedFile "B")); reflexivity.
Defined.

Lemma plain_arrow_on_single_follows_focused_file_witness :
  exists dir calls,
    maybeMoveSelection plainKey plainKey
      (press "ArrowDown" false (namedFile "A") exampleFiles ["Z"]) = Returned dir calls /\
    selection (performAll plainKey calls
                 {| selection := ["Z"]; focused := Some 1%nat |}) = ["B"].
Proof.
  destruct (plain_arrow_on_single_follows_focused_file plainKey plainKey
              (press "ArrowDown" false (namedFile "A") exampleFiles ["Z"]) "Z")
    as (dir & calls & Hret & Hsel).
  - reflexivity.
  - reflexivity.
  - exists dir, calls. split; [exact Hret|].
    destruct (Hsel {| selection := ["Z"]; focused := Some 1%nat |}) as [_ Hpos].
    destruct (Hpos 0%nat) as [Hdown _].
    + apply (position_of_lookup exampleFiles 0 (namedFile "A") exampleFiles_distinct).
      reflexivity.
    + destruct Hdown as [Hnext _]; [reflexivity|].
      apply (Hnext (namedFile "B")). reflexivity.
Defined.

Lemma shift_is_ignored_without_multiple_witness :
  maybeMoveSelection plainKey plainKey
    {| allowMultiple := false; shiftKey := true; key := "ArrowDown";
       targetElement := exampleElement; file := namedFile "B";
       files := exampleFiles; selectedFileIds := ["B"] |} =
  Returned (Some none)
    [element_focus 2; fileIdSelection_clear; fileIdSelection_add "C"].
Proof.
  change (maybeMoveSelection plainKey plainKey
            (withShiftKey true
               {| allowMultiple := false; shiftKey := true; key := "ArrowDown";
                  targetElement := exampleElement; file := namedFile "B";
                  files := exampleFiles; selectedFileIds := ["B"] |}) =
          Returned (Some none)
            [element_focus 2; fileIdSelection_clear; fileIdSelection_add "C"]).
  rewrite (shift_is_ignored_without_multiple plainKey plainKey); reflexivity.
Defined.

Lemma extension_appends_adjacent_file_witness :
  exists dir,
    maybeMoveSelection plainKey plainKey
      (press "ArrowDown" true (namedFile "B") exampleFiles ["B"]) =
      Returned (Some dir) [fileIdSelection_add "C"] /\
    selection (performAll plainKey [fileIdSelection_add "C"]
                 {| selection := ["B"]; focused := Some 1%nat |}) = ["B"; "C"].
Proof.
  apply (extension_appends_adjacent_file plainKey plainKey
           (press "ArrowDown" true (namedFile "B") exampleFiles ["B"])
           {| selection := ["B"]; focused := Some 1%nat |} "B" "B" (namedFile "C")).
  - reflexivity.
  - reflexivity.
  - reflexivity.
  - reflexivity.
  - left. split; [reflexivity|]. split; [reflexivity|]. left. reflexivity.
  - rewrite list_elem_of_In. simpl. intuition discriminate.
Defined.

Lemma reversal_drops_last_key_witness :
  maybeMoveSelection plainKey plainKey
    (press "ArrowUp" true (namedFile "B") exampleFiles ["A"; "B"; "C"]) =
    Returned (Some down) [fileIdSelection_remove "C"] /\
  selection (performAll plainKey [fileIdSelection_remove "C"]
               {| selection := ["A"; "B"; "C"]; focused := Some 1%nat |}) = ["A"; "B"].
Proof.
  destruct (reversal_drops_last_key plainKey plainKey
              (press "ArrowUp" true (namedFile "B") exampleFiles ["A"; "B"; "C"])
              {| selection := ["A"; "B"; "C"]; focused := Some 1%nat |}
              "A" "C" (namedFile "B")) as [Hret Hsel].
  - reflexivity.
  - reflexivity.
  - simpl. lia.
  - reflexivity.
  - reflexivity.
  - left. split; [reflexivity|]. split; reflexivity.
  - apply list_elem_of_In. simpl. tauto.
  - split; [exact Hret|]. apply Hsel.
    + reflexivity.
    + apply NoDup_ListNoDup. simpl.
      repeat constructor; simpl; intuition discriminate.
    + reflexivity.
Defined.



(** * The token effect on a URL with a token *)

Lemma token_handed_to_auth_service_witness :
  authService_setToken "stored" ∈
    [authService_setToken "stored"; goto "?tab=files"].
Proof.
  destruct (token_handed_to_auth_service plainQuery (Some "stored")
              [("gb_access_token", "fromUrl"); ("tab", "files")]
              [authService_setToken "stored"; goto "?tab=files"]
              [("tab", "files")]) as [Hiff _].
  - reflexivity.
  - apply Hiff. split; [discriminate|]. left. reflexivity.
Defined.

Lemma token_parameter_is_stripped_witness :
  searchParams_has "gb_access_token" [("tab", "files")] = false /\
  forall url, goto url ∈ [authService_setToken "abc"; goto "?tab=files"] ->
              url = "?" +:+ plainQuery [("tab", "files")].
Proof.
  destruct (token_parameter_is_stripped plainQuery None
              [("gb_access_token", "abc"); ("tab", "files")]
              [authService_setToken "abc"; goto "?tab=files"]
              [("tab", "files")]) as (_ & Hgone & _ & _ & Hurl).
  - reflexivity.
  - discriminate.
  - split; [exact Hgone|exact Hurl].
Defined.

Lemma second_run_never_navigates_witness :
  fst (tokenEffect plainQuery (Some "abc") [("tab", "files")]) =
    [authService_setToken "abc"].
Proof.
  destruct (second_run_never_navigates plainQuery None (Some "abc")
              [("gb_access_token", "abc"); ("tab", "files")]
              [authService_setToken "abc"; goto "?tab=files"]
              [("tab", "files")]) as (_ & _ & Hset).
  - reflexivity.
  - discriminate.
  - apply (Hset "abc"); [reflexivity|discriminate].
Defined.
